(** * ai-media-transcriber-assistant: the Express server of [src/index.js]

    A shallow embedding of the three request handlers ([/api/transcribe],
    [/api/qa], [/api/export]) and of their helpers ([downloadYoutube],
    [convertToWav], [transcribeWithGroq], [safeUnlink]).

    - JavaScript values are the inductive type [jsval]; objects are finite
      maps from property names to values.
    - The handlers run in a state-and-exception monad [M] whose state holds
      the files on disk, the log of calls that leave the process and the
      response under construction.
    - Everything the server does not own (ytdl-core, yt-dlp, ffmpeg, the Groq
      client, the docx packer, failures of [fs.unlinkSync]) is a field of the
      record [World]; a handler is a function of the world it runs in. *)

From Stdlib Require Import ZArith Ascii String List Bool Lia.
From stdpp Require Import base option list strings gmap pretty.

Set Warnings "-register-all".

Local Open Scope string_scope.
Local Open Scope Z_scope.

(** ** JavaScript values *)

Module JS.

(** [JNum] carries integers only: the handlers test numbers for truthiness
    and print them in template literals, nothing else.  [JError name msg] is
    an [Error] instance ([new Error(msg)] has the name ["Error"]). *)
Inductive jsval : Type :=
  | JUndefined
  | JNull
  | JBool (b : bool)
  | JNum (n : Z)
  | JStr (s : string)
  | JArr (l : list jsval)
  | JObj (o : gmap string jsval)
  | JError (name message : string).

(** ToBoolean: [undefined], [null], [false], [0] and the empty string are
    falsy, every object is truthy. *)
Definition truthy (v : jsval) : bool :=
  match v with
  | JUndefined | JNull => false
  | JBool b => b
  | JNum n => negb (n =? 0)
  | JStr s => negb (String.eqb s EmptyString)
  | JArr _ | JObj _ | JError _ _ => true
  end.

(** [a || b] and [a && b]. *)
Definition js_or (a b : jsval) : jsval := if truthy a then a else b.
Definition js_and (a b : jsval) : jsval := if truthy a then b else a.

(** Property read [v.k] on a value that is not [null] or [undefined], for
    the property names the server reads (none of them is [length] or a
    method name). *)
Definition prop (v : jsval) (k : string) : jsval :=
  match v with
  | JObj o => default JUndefined (o !! k)
  | JError name message =>
      if String.eqb k "message" then JStr message
      else if String.eqb k "name" then JStr name
      else JUndefined
  | _ => JUndefined
  end.

(** Optional chaining [v?.k] and [v?.[i]]. *)
Definition opt_prop (v : jsval) (k : string) : jsval :=
  match v with
  | JUndefined | JNull => JUndefined
  | _ => prop v k
  end.

Definition opt_index (v : jsval) (i : nat) : jsval :=
  match v with
  | JArr l => default JUndefined (l !! i)
  | JObj o => default JUndefined (o !! (pretty i : string))
  | JStr s => match String.get i s with
              | Some c => JStr (String c EmptyString)
              | None => JUndefined
              end
  | _ => JUndefined
  end.

(** Strict equality with a string literal: [v === "lit"]. *)
Definition is_str (v : jsval) (lit : string) : bool :=
  match v with
  | JStr s => String.eqb s lit
  | _ => false
  end.

(** [Array.prototype.join(",")], as ToString applies it to arrays. *)
Fixpoint join (sep : string) (l : list string) : string :=
  match l with
  | [] => EmptyString
  | [x] => x
  | x :: rest => x +:+ sep +:+ join sep rest
  end.

(** ToString, which is both [String(v)] and what a template literal applies
    to an interpolated value. *)
Fixpoint to_string (v : jsval) : string :=
  match v with
  | JUndefined => "undefined"
  | JNull => "null"
  | JBool true => "true"
  | JBool false => "false"
  | JNum n => pretty n
  | JStr s => s
  | JArr l =>
      join ","
        (map (fun x => match x with
                       | JUndefined | JNull => EmptyString
                       | _ => to_string x
                       end) l)
  | JObj _ => "[object Object]"
  | JError name message =>
      if String.eqb name EmptyString then message
      else if String.eqb message EmptyString then name
      else name +:+ ": " +:+ message
  end.

(** An object literal [{ k1: v1, ..., kn: vn }] with distinct keys. *)
Definition obj (fields : list (string * jsval)) : jsval :=
  JObj (list_to_map fields).
Global Arguments obj : simpl never.

(** [new Error(msg)]. *)
Definition new_Error (msg : string) : jsval := JError "Error" msg.

(** Destructuring [const { k } = body || {}]. *)
Definition body_field (body : jsval) (k : string) : jsval :=
  prop (js_or body (JObj ∅)) k.

(** The idiom [(e && e.message) || String(e)] of [downloadYoutube]. *)
Definition message_or_string (e : jsval) : jsval :=
  js_or (js_and e (prop e "message")) (JStr (to_string e)).

(** The idiom [err?.message || String(err)] of the handlers. *)
Definition error_details (e : jsval) : jsval :=
  js_or (opt_prop e "message") (JStr (to_string e)).

(** Whether [JSON.stringify] writes the property [k] of the object [v]: a
    property whose value is [undefined] is left out. *)
Definition json_present (v : jsval) (k : string) : bool :=
  match v with
  | JObj o => match o !! k with
              | Some JUndefined | None => false
              | Some _ => true
              end
  | _ => false
  end.

End JS.

(** ** Strings: the regular expressions and string methods the server uses *)

Module Str.

Definition LF : ascii := ascii_of_nat 10.
Definition CR : ascii := ascii_of_nat 13.
Definition DQUOTE : ascii := ascii_of_nat 34.

(** ASCII lower-casing; a regular expression with the [i] flag and an ASCII
    pattern matches a character exactly when this maps both to the same
    letter. *)
Definition lower (c : ascii) : ascii :=
  let n := nat_of_ascii c in
  if ((65 <=? n) && (n <=? 90))%nat then ascii_of_nat (n + 32) else c.

Fixpoint lower_string (s : string) : string :=
  match s with
  | EmptyString => EmptyString
  | String c r => String (lower c) (lower_string r)
  end.

(** [s.startsWith(p)]. *)
Definition startsWith (s p : string) : bool := String.prefix p s.

(** [/p/.test(s)] for a pattern [p] without metacharacters: [p] occurs
    somewhere in [s]. *)
Fixpoint includes (p s : string) : bool :=
  String.prefix p s ||
  match s with
  | EmptyString => false
  | String _ r => includes p r
  end.

(** [/p/i.test(s)] for such a pattern. *)
Definition includes_ci (p s : string) : bool :=
  includes (lower_string p) (lower_string s).

(** The global replace of the csv export: every double quote of the line is
    written twice. *)
Fixpoint double_quotes (l : string) : string :=
  match l with
  | EmptyString => EmptyString
  | String c r =>
      if Ascii.eqb c DQUOTE then String DQUOTE (String DQUOTE (double_quotes r))
      else String c (double_quotes r)
  end.

(** Puts [c] in front of the first string of a list. *)
Definition push_front (c : ascii) (ls : list string) : list string :=
  match ls with
  | [] => [String c EmptyString]
  | l :: rest => String c l :: rest
  end.

(** [content.split(/\r?\n/)]: a line ends at LF or at CR LF; a CR that no
    LF follows stays in its line.  The result is never empty. *)
Fixpoint split_lines (s : string) : list string :=
  match s with
  | EmptyString => [EmptyString]
  | String c r =>
      if Ascii.eqb c LF then EmptyString :: split_lines r
      else
        match r with
        | String c' r' =>
            if Ascii.eqb c CR && Ascii.eqb c' LF
            then EmptyString :: split_lines r'
            else push_front c (split_lines r)
        | EmptyString => push_front c (split_lines r)
        end
  end.

End Str.

(** ** The server's state, the outside world and the monad of handlers *)

Module Server.
Import JS.

(** What [res.json], [res.send] or a piped document put in the response. *)
Inductive body : Type :=
  | BJson (v : jsval)                  (* res.json(v) *)
  | BSend (v : jsval)                  (* res.send(v) *)
  | BJsonText (v : jsval)              (* res.send(JSON.stringify(v)) *)
  | BPdf (title : jsval) (text : jsval)  (* the PDFKit document piped to res *)
  | BBuffer (b : string).              (* res.send(buffer) *)

Record response : Type := mkResponse {
  status : Z;
  headers : gmap string string;
  sent : option body
}.

(** Express starts every response at status 200 with nothing sent. *)
Definition fresh_response : response :=
  {| status := 200; headers := ∅; sent := None |}.

(** A call that leaves the handler: to a library, to the file system or to
    the console. *)
Inductive event : Type :=
  | EvGetInfo (url : jsval)
  | EvYtdl (url : jsval) (dest : string)
  | EvYtdlp (url : jsval) (output : string)
  | EvFfmpeg (input : jsval) (options : list string) (output : string)
  | EvTranscription (file : string) (model : string)
  | EvChat (messages : list (string * string)) (model : string)
  | EvReaddir (dir : string)
  | EvExists (p : jsval)
  | EvUnlink (p : string)
  | EvPack (paragraphs : list string)
  | EvConsole (level : string) (args : list jsval).

(** The mutable locals of the transcribe handler. *)
Record locals : Type := mkLocals {
  workingInputPath : jsval;
  mp4Path : jsval;
  wavPath : jsval
}.

Record state : Type := mkState {
  files : list string;     (* paths of the files on disk *)
  log : list event;        (* calls made so far, oldest first *)
  res : response;
  vars : locals
}.

Definition initial_state (disk : list string) : state :=
  {| files := disk; log := [];
     res := fresh_response;
     vars := mkLocals JNull JNull JNull |}.

(** A computation returns a value or throws a JavaScript value. *)
Inductive outcome (A : Type) : Type :=
  | Returns (a : A)
  | Throws (e : jsval).
Arguments Returns {A} a.
Arguments Throws {A} e.

(** A library call reports how it ended and which files it left on disk. *)
Definition tool_result : Type := (outcome unit * list string)%type.

(** What the server does not own.
    - [tmp_dir]: the constant [TMP_DIR];
    - [ytdl_validateURL], [ytdl_getInfo]: the ytdl-core functions;
    - [ytdl_download url dest]: the promise around the ytdl-core stream
      piped into [fs.createWriteStream(dest)], resolved on [finish] and
      rejected on an [error] of either stream;
    - [ytdlp]: the module [youtube-dl-exec], [None] when [require] failed
      (the variable [ytdlp] is then [null]); it takes the URL and the
      output template;
    - [ffmpeg_save input options output]: the fluent-ffmpeg command, ended
      by [end] or [error];
    - [groq_transcribe file]: reading the file and
      [groq.audio.transcriptions.create];
    - [groq_chat messages model]: [groq.chat.completions.create];
    - [unlink_error p]: the message of the error with which the system
      refuses to delete the existing file [p], if it does;
    - [packer_toBuffer paragraphs]: [Packer.toBuffer] on the docx document
      of these paragraphs. *)
Record World : Type := mkWorld {
  tmp_dir : string;
  ytdl_validateURL : jsval → bool;
  ytdl_getInfo : jsval → outcome unit;
  ytdl_download : jsval → string → tool_result;
  ytdlp : option (jsval → string → tool_result);
  ffmpeg_save : jsval → list string → string → tool_result;
  groq_transcribe : string → outcome jsval;
  groq_chat : list (string * string) → string → outcome jsval;
  unlink_error : string → option string;
  packer_toBuffer : list string → outcome string
}.

(** The truthiness of the variable [ytdlp]. *)
Definition ytdlp_installed (w : World) : bool :=
  match ytdlp w with
  | Some _ => true
  | None => false
  end.

Definition M (A : Type) : Type := state → outcome A * state.

Definition ret {A} (a : A) : M A := λ s, (Returns a, s).
Definition throw {A} (e : jsval) : M A := λ s, (Throws e, s).
Definition bind {A B} (m : M A) (k : A → M B) : M B :=
  λ s, match m s with
       | (Returns a, s') => k a s'
       | (Throws e, s') => (Throws e, s')
       end.

Notation "x <- m ;; k" := (bind m (λ x, k))
  (at level 20, m at level 99, k at level 200, only parsing).
Notation "m ;; k" := (bind m (λ _, k))
  (at level 100, k at level 200, right associativity, only parsing).

(** [try { m } catch (e) { h e }]. *)
Definition try_catch {A} (m : M A) (h : jsval → M A) : M A :=
  λ s, match m s with
       | (Returns a, s') => (Returns a, s')
       | (Throws e, s') => h e s'
       end.

(** [try { m } finally { f }]: [f] always runs, and an exception of [f]
    replaces the outcome of [m]. *)
Definition try_finally {A} (m : M A) (f : M unit) : M A :=
  λ s, match m s with
       | (r, s') =>
           match f s' with
           | (Returns _, s'') => (r, s'')
           | (Throws e, s'') => (Throws e, s'')
           end
       end.

Definition emit (e : event) : M unit :=
  λ s, (Returns tt, mkState (files s) (log s ++ [e]) (res s) (vars s)).

Definition get_vars : M locals := λ s, (Returns (vars s), s).
Definition set_vars (f : locals → locals) : M unit :=
  λ s, (Returns tt, mkState (files s) (log s) (res s) (f (vars s))).

Definition lift_outcome {A} (o : outcome A) : M A := λ s, (o, s).

(** *** The response object *)

Definition update_res (f : response → response) : M unit :=
  λ s, (Returns tt, mkState (files s) (log s) (f (res s)) (vars s)).

Definition res_status (code : Z) : M unit :=
  update_res (λ r, mkResponse code (headers r) (sent r)).
Definition res_setHeader (name value : string) : M unit :=
  update_res (λ r, mkResponse (status r) (<[name := value]> (headers r)) (sent r)).
Definition res_end (b : body) : M unit :=
  update_res (λ r, mkResponse (status r) (headers r) (Some b)).
Definition res_json (v : jsval) : M unit := res_end (BJson v).
Definition res_send (v : jsval) : M unit := res_end (BSend v).

(** *** The file system *)

Definition path_join (dir name : string) : string := dir +:+ "/" +:+ name.

(** Files a library call wrote appear on disk, once each. *)
Definition write_files (written : list string) : M unit :=
  λ s, (Returns tt,
        mkState (files s ++ filter (λ p, p ∉ files s) (remove_dups written))
                (log s) (res s) (vars s)).

Definition run_tool (r : tool_result) : M unit :=
  write_files (snd r) ;; lift_outcome (fst r).

(** [fs.existsSync]: false for anything that is not the path of a file. *)
Definition existsSync (p : jsval) : M bool :=
  emit (EvExists p) ;;
  λ s, (Returns match p with
                | JStr f => bool_decide (f ∈ files s)
                | _ => false
                end, s).

(** [fs.unlinkSync]: throws when the file is missing or the system refuses. *)
Definition unlinkSync (w : World) (p : string) : M unit :=
  emit (EvUnlink p) ;;
  λ s, if bool_decide (p ∈ files s) then
         match unlink_error w p with
         | Some msg => (Throws (new_Error msg), s)
         | None =>
             (Returns tt,
              mkState (filter (λ f, f ≠ p) (files s)) (log s) (res s) (vars s))
         end
       else (Throws (new_Error ("ENOENT: no such file or directory, unlink '"
                                +:+ p +:+ "'")), s).

(** [fs.readdirSync(dir)]: the names of the files of [dir], in disk order. *)
Definition strip_dir (dir p : string) : option string :=
  let d := dir +:+ "/" in
  if String.prefix d p
  then Some (String.substring (String.length d) (String.length p - String.length d) p)
  else None.

Definition readdirSync (dir : string) : M (list string) :=
  emit (EvReaddir dir) ;;
  λ s, (Returns (omap (strip_dir dir) (files s)), s).

(** *** Helpers of the transcription pipeline *)

(** The output options [convertToWav] gives ffmpeg: no video, no subtitles,
    overwrite, one channel, 16 kHz, WAV container, signed 16-bit PCM. *)
Definition wav_output_options : list string :=
  ["-vn"; "-sn"; "-y"; "-ac 1"; "-ar 16000"; "-f wav"; "-acodec pcm_s16le"].

(** [convertToWav(inputPath, outputPath)]: resolves with [outputPath] on
    ffmpeg's [end] event, rejects with the error of its [error] event. *)
Definition convertToWav (w : World) (inputPath : jsval) (outputPath : string) : M string :=
  emit (EvFfmpeg inputPath wav_output_options outputPath) ;;
  run_tool (ffmpeg_save w inputPath wav_output_options outputPath) ;;
  ret outputPath.

Definition decipher_pattern : string := "Could not extract functions".

Definition upgrade_message : string :=
  "ytdl-core failed to download (signature change). Install/upgrade ytdl-core or add youtube-dl-exec (yt-dlp) as fallback.".

Definition out_template (w : World) (id : string) : string :=
  path_join (tmp_dir w) (id +:+ ".%(ext)s").

(** The body of the [if (ytdlp)] block of [downloadYoutube]. *)
Definition ytdlp_fallback (w : World) (run : jsval → string → tool_result)
    (url : jsval) (id : string) : M string :=
  try_catch
    (emit (EvYtdlp url (out_template w id)) ;;
     run_tool (run url (out_template w id)) ;;
     names <- readdirSync (tmp_dir w) ;;
     match List.find (λ f, Str.startsWith f (id +:+ ".")) names with
     | Some found =>
         if negb (truthy (JStr found))
         then throw (new_Error "yt-dlp did not produce an output file")
         else ret (path_join (tmp_dir w) found)
     | None => throw (new_Error "yt-dlp did not produce an output file")
     end)
    (λ e, throw (new_Error ("yt-dlp fallback failed: " +:+ to_string (message_or_string e)))).

(** The [catch (err)] block of [downloadYoutube]. *)
Definition download_recover (w : World) (url : jsval) (id : string)
    (err : jsval) : M string :=
  let msg := message_or_string err in
  let decipherIssue := Str.includes_ci decipher_pattern (to_string msg) in
  (if negb decipherIssue then
     if negb (ytdlp_installed w)
     then throw (new_Error ("YouTube download failed: " +:+ to_string msg))
     else ret tt
   else ret tt) ;;
  match ytdlp w with
  | Some run => ytdlp_fallback w run url id
  | None => throw (new_Error upgrade_message)
  end.

(** The [try] block of [downloadYoutube]: the ytdl-core preflight, then the
    stream piped into the file [mp4]. *)
Definition ytdl_primary (w : World) (url : jsval) (mp4 : string) : M string :=
  emit (EvGetInfo url) ;;
  lift_outcome (ytdl_getInfo w url) ;;
  emit (EvYtdl url mp4) ;;
  run_tool (ytdl_download w url mp4) ;;
  ret mp4.

Definition mp4_path (w : World) (id : string) : string :=
  path_join (tmp_dir w) (id +:+ ".mp4").

(** [downloadYoutube(url, id)]. *)
Definition downloadYoutube (w : World) (url : jsval) (id : string) : M string :=
  if negb (ytdl_validateURL w url) then throw (new_Error "Invalid YouTube URL")
  else
    try_catch (ytdl_primary w url (mp4_path w id)) (download_recover w url id).

Definition whisper_model : string := "whisper-large-v3-turbo".

(** [transcribeWithGroq(wavPath)]. *)
Definition transcribeWithGroq (w : World) (wav : string) : M jsval :=
  emit (EvTranscription wav whisper_model) ;;
  lift_outcome (groq_transcribe w wav).

(** [safeUnlink(filePath)]. *)
Definition safeUnlink (w : World) (filePath : jsval) : M unit :=
  if negb (truthy filePath) then ret tt
  else
    try_catch
      (present <- existsSync filePath ;;
       if present then unlinkSync w (to_string filePath) else ret tt)
      (λ e, emit (EvConsole "warn"
                    [JStr "Failed to remove"; filePath; prop e "message"])).

(** *** POST /api/transcribe *)

Record request : Type := mkRequest {
  req_body : jsval;            (* req.body *)
  req_file : option string     (* req.file.path, when multer stored a file *)
}.

Definition no_input_message : string :=
  "Provide a YouTube URL or upload an audio file.".

Definition hint_message : string :=
  "Try: npm i ytdl-core@latest. If it persists, install yt-dlp fallback: npm i youtube-dl-exec and rerun.".

Definition wav_path (w : World) (id : string) : string :=
  path_join (tmp_dir w) (id +:+ ".wav").

(** From the assignment of [wavPath] to [res.json] in the [try] block. *)
Definition convert_and_transcribe (w : World) (id : string) : M unit :=
  set_vars (λ v, mkLocals (workingInputPath v) (mp4Path v) (JStr (wav_path w id))) ;;
  v <- get_vars ;;
  convertToWav w (workingInputPath v) (wav_path w id) ;;
  transcription <- transcribeWithGroq w (wav_path w id) ;;
  let text := js_or (opt_prop transcription "text") (JStr EmptyString) in
  res_json (obj [("id", JStr id); ("text", text);
                 ("transcription", transcription)]).

(** The [try] block; the early [return] of its last branch ends it. *)
Definition transcribe_try (w : World) (id : string)
    (youtubeUrl uploadedFilePath : jsval) : M unit :=
  if truthy youtubeUrl then
    p <- downloadYoutube w youtubeUrl id ;;
    set_vars (λ v, mkLocals (JStr p) (mp4Path v) (wavPath v)) ;;
    convert_and_transcribe w id
  else if truthy uploadedFilePath then
    set_vars (λ v, mkLocals uploadedFilePath (mp4Path v) (wavPath v)) ;;
    convert_and_transcribe w id
  else
    res_status 400 ;;
    res_json (obj [("error", JStr no_input_message)]).

Definition failure_signature : string := "ytdl-core failed".

(** The [catch (err)] block. *)
Definition transcribe_catch (err : jsval) : M unit :=
  emit (EvConsole "error" [JStr "/api/transcribe error:"; err]) ;;
  let details := error_details err in
  let hint := if Str.includes failure_signature (to_string details)
              then JStr hint_message else JUndefined in
  res_status 500 ;;
  res_json (obj [("error", JStr "Transcription failed");
                 ("details", details); ("hint", hint)]).

(** The [finally] block. *)
Definition transcribe_cleanup (w : World) (uploadedFilePath : jsval) : M unit :=
  v <- get_vars ;;
  safeUnlink w (mp4Path v) ;;
  safeUnlink w (wavPath v) ;;
  safeUnlink w uploadedFilePath.

Definition uploaded_path (req : request) : jsval :=
  match req_file req with
  | Some p => JStr p
  | None => JNull
  end.

(** The handler; [id] is the value [uuidv4()] returns for this request. *)
Definition transcribe (w : World) (id : string) (req : request) : M unit :=
  let youtubeUrl := body_field (req_body req) "youtubeUrl" in
  let uploadedFilePath := uploaded_path req in
  set_vars (λ _, mkLocals JNull JNull JNull) ;;
  try_finally
    (try_catch (transcribe_try w id youtubeUrl uploadedFilePath) transcribe_catch)
    (transcribe_cleanup w uploadedFilePath).

(** *** POST /api/qa *)

Definition nl : string := String Str.LF EmptyString.

Definition system_prompt : string :=
  "You are a professional teaching assistant. Answer strictly based on the provided transcript. If the transcript does not contain the answer, say: 'I don't know based on the transcript.' Produce a polished, executive-style response using GitHub-flavored markdown with a clear structure:"
  +:+ nl +:+ nl +:+ "# Title" +:+ nl +:+ "## Executive Summary" +:+ nl
  +:+ "- 3–6 bullets" +:+ nl +:+ nl +:+ "## Key Insights" +:+ nl
  +:+ "- Bulleted points" +:+ nl +:+ nl +:+ "## Actionable Recommendations" +:+ nl
  +:+ "1. Numbered steps" +:+ nl +:+ nl +:+ "## Notes" +:+ nl
  +:+ "- Assumptions, constraints, or caveats" +:+ nl +:+ nl
  +:+ "Tone: concise, professional, and objective. No chit-chat.".

(** The user message: the transcript, then the question. *)
Definition user_prompt (transcript question : jsval) : string :=
  "Transcript:" +:+ nl +:+ to_string transcript +:+ nl +:+ nl
  +:+ "Question: " +:+ to_string question.

Definition qa_messages (transcript question : jsval) : list (string * string) :=
  [("system", system_prompt); ("user", user_prompt transcript question)].

Definition chat_model : string := "openai/gpt-oss-20b".

Definition qa_missing_message : string :=
  "Missing 'question' or 'transcript' in body.".

(** [completion?.choices?.[0]?.message?.content || ""]. *)
Definition completion_answer (completion : jsval) : jsval :=
  js_or (opt_prop (opt_prop (opt_index (opt_prop completion "choices") 0)
                     "message") "content")
        (JStr EmptyString).

Definition qa_try (w : World) (reqBody : jsval) : M unit :=
  let question := body_field reqBody "question" in
  let transcript := body_field reqBody "transcript" in
  if negb (truthy question) || negb (truthy transcript) then
    res_status 400 ;;
    res_json (obj [("error", JStr qa_missing_message)])
  else
    let messages := qa_messages transcript question in
    emit (EvChat messages chat_model) ;;
    completion <- lift_outcome (groq_chat w messages chat_model) ;;
    res_json (obj [("answer", completion_answer completion)]).

Definition qa_catch (err : jsval) : M unit :=
  emit (EvConsole "error" [JStr "/api/qa error:"; err]) ;;
  res_status 500 ;;
  res_json (obj [("error", JStr "QA failed");
                 ("details", error_details err)]).

Definition qa (w : World) (reqBody : jsval) : M unit :=
  try_catch (qa_try w reqBody) qa_catch.

(** *** POST /api/export *)

(** One csv record: the line between double quotes, its own double quotes
    doubled. *)
Definition csv_quote (l : string) : string :=
  String Str.DQUOTE (Str.double_quotes l +:+ String Str.DQUOTE EmptyString).

(** [content.split(...)], which exists on strings only. *)
Definition js_split_lines (content : jsval) : M (list string) :=
  match content with
  | JStr s => ret (Str.split_lines s)
  | _ => throw (JError "TypeError" "content.split is not a function")
  end.

(** The csv text of a content string. *)
Definition csv_of_lines (lines : list string) : string :=
  join nl (map csv_quote lines).

Definition export_missing_message : string := "Missing 'type' or 'content'".

Definition disposition (base : jsval) (ext : string) : string :=
  "attachment; filename=" +:+ to_string base +:+ "." +:+ ext.

Definition docx_mime : string :=
  "application/vnd.openxmlformats-officedocument.wordprocessingml.document".

Definition export_try (w : World) (reqBody : jsval) : M unit :=
  let type := body_field reqBody "type" in
  let content := body_field reqBody "content" in
  let filename := body_field reqBody "filename" in
  if negb (truthy type) || negb (truthy content) then
    res_status 400 ;;
    res_json (obj [("error", JStr export_missing_message)])
  else
    let base := js_or filename (JStr "export") in
    if is_str type "txt" then
      res_setHeader "Content-Type" "text/plain; charset=utf-8" ;;
      res_setHeader "Content-Disposition" (disposition base "txt") ;;
      res_send content
    else if is_str type "json" then
      res_setHeader "Content-Type" "application/json" ;;
      res_setHeader "Content-Disposition" (disposition base "json") ;;
      res_end (BJsonText (obj [("content", content)]))
    else if is_str type "csv" then
      res_setHeader "Content-Type" "text/csv; charset=utf-8" ;;
      res_setHeader "Content-Disposition" (disposition base "csv") ;;
      lines <- js_split_lines content ;;
      res_send (JStr (csv_of_lines lines))
    else if is_str type "pdf" then
      res_setHeader "Content-Type" "application/pdf" ;;
      res_setHeader "Content-Disposition" (disposition base "pdf") ;;
      res_end (BPdf base content)
    else if is_str type "docx" then
      paragraphs <- js_split_lines content ;;
      emit (EvPack paragraphs) ;;
      buffer <- lift_outcome (packer_toBuffer w paragraphs) ;;
      res_setHeader "Content-Type" docx_mime ;;
      res_setHeader "Content-Disposition" (disposition base "docx") ;;
      res_end (BBuffer buffer)
    else
      res_status 400 ;;
      res_json (obj [("error", JStr "Unsupported type")]).

Definition export_catch (err : jsval) : M unit :=
  emit (EvConsole "error" [JStr "/api/export error:"; err]) ;;
  res_status 500 ;;
  res_json (obj [("error", JStr "Export failed");
                 ("details", error_details err)]).

Definition export (w : World) (reqBody : jsval) : M unit :=
  try_catch (export_try w reqBody) export_catch.

(** Running a handler on a disk: the response and the final state. *)
Definition run (h : M unit) (disk : list string) : outcome unit * state :=
  h (initial_state disk).

End Server.

(** ** Vocabulary of the statements *)

Module Spec.
Import JS Server.
Local Open Scope list_scope.

(** Calls of the cleanup step, calls of [downloadYoutube], and calls that
    convert or transcribe the file [u]. *)
Definition cleanup_event (e : event) : bool :=
  match e with
  | EvExists _ | EvUnlink _ | EvConsole _ _ => true
  | _ => false
  end.

Definition download_event (e : event) : bool :=
  match e with
  | EvGetInfo _ | EvYtdl _ _ | EvYtdlp _ _ | EvReaddir _ => true
  | _ => false
  end.

Definition reads_file (u : string) (e : event) : bool :=
  match e with
  | EvFfmpeg (JStr x) _ _ => String.eqb x u
  | EvTranscription x _ => String.eqb x u
  | _ => false
  end.


(** [s'] comes after [s] by calls that satisfy [P]: the response and the
    locals are untouched and no file disappeared. *)
Definition extends (P : event → bool) (s s' : state) : Prop :=
  res s' = res s ∧ vars s' = vars s
  ∧ (∀ f, f ∈ files s → f ∈ files s')
  ∧ ∃ evs, log s' = log s ++ evs ∧ forallb P evs = true.

(** A returned path names a file of the temporary directory that starts
    with the request id and a dot. *)
Definition names_under (w : World) (id : string) (r : outcome string) : Prop :=
  ∀ p, r = Returns p →
    ∃ name, Str.startsWith name (id +:+ ".") = true
            ∧ p = path_join (tmp_dir w) name.

(** What one call of [safeUnlink] does to the state. *)
Inductive unlink_case (w : World) (p : jsval) (s s' : state) : Prop :=
  | unlink_skipped :
      truthy p = false → s' = s → unlink_case w p s s'
  | unlink_absent :
      truthy p = true →
      (∀ f, p = JStr f → f ∉ files s) →
      s' = mkState (files s) (log s ++ [EvExists p]) (res s) (vars s) →
      unlink_case w p s s'
  | unlink_done f :
      p = JStr f → f ≠ EmptyString → f ∈ files s → unlink_error w f = None →
      s' = mkState (filter (λ g, g ≠ f) (files s))
                   (log s ++ [EvExists p; EvUnlink f]) (res s) (vars s) →
      unlink_case w p s s'
  | unlink_failed f msg :
      p = JStr f → f ≠ EmptyString → f ∈ files s → unlink_error w f = Some msg →
      s' = mkState (files s)
                   (log s ++ [EvExists p; EvUnlink f;
                              EvConsole "warn" [JStr "Failed to remove"; p; JStr msg]])
                   (res s) (vars s) →
      unlink_case w p s s'.

(** The state the [catch] block of the transcribe handler leaves. *)
Definition after_catch (e : jsval) (s : state) : state :=
  snd (transcribe_catch e s).

Definition add_files (written disk : list string) : list string :=
  disk ++ filter (λ p, p ∉ disk) (remove_dups written).

(** How the part of the [try] block after the choice of the input ends. *)
Inductive pipeline_case (w : World) (id : string) (input : jsval) (s : state) :
    outcome unit → state → Prop :=
  | convert_failed e written :
      ffmpeg_save w input wav_output_options (wav_path w id) = (Throws e, written) →
      pipeline_case w id input s (Throws e)
        (mkState (add_files written (files s))
                 (log s ++ [EvFfmpeg input wav_output_options (wav_path w id)])
                 (res s)
                 (mkLocals input (mp4Path (vars s)) (JStr (wav_path w id))))
  | transcription_failed e written :
      ffmpeg_save w input wav_output_options (wav_path w id) = (Returns tt, written) →
      groq_transcribe w (wav_path w id) = Throws e →
      pipeline_case w id input s (Throws e)
        (mkState (add_files written (files s))
                 (log s ++ [EvFfmpeg input wav_output_options (wav_path w id);
                            EvTranscription (wav_path w id) whisper_model])
                 (res s)
                 (mkLocals input (mp4Path (vars s)) (JStr (wav_path w id))))
  | transcribed t written :
      ffmpeg_save w input wav_output_options (wav_path w id) = (Returns tt, written) →
      groq_transcribe w (wav_path w id) = Returns t →
      pipeline_case w id input s (Returns tt)
        (mkState (add_files written (files s))
                 (log s ++ [EvFfmpeg input wav_output_options (wav_path w id);
                            EvTranscription (wav_path w id) whisper_model])
                 (mkResponse (status (res s)) (headers (res s))
                    (Some (BJson (obj [("id", JStr id);
                                       ("text", js_or (opt_prop t "text") (JStr EmptyString));
                                       ("transcription", t)]))))
                 (mkLocals input (mp4Path (vars s)) (JStr (wav_path w id)))).

Definition reset_vars (s : state) : state :=
  mkState (files s) (log s) (res s) (mkLocals JNull JNull JNull).

Definition settle (r : outcome unit) (s : state) : state :=
  match r with
  | Returns _ => s
  | Throws e => after_catch e s
  end.

Definition rejected (s : state) : state :=
  mkState (files s) (log s)
    (mkResponse 400 (headers (res s))
       (Some (BJson (obj [("error", JStr no_input_message)]))))
    (vars s).

(** The state in which the [finally] block of the transcribe handler
    starts, by the way the [try] block ended. *)
Inductive transcribe_case (w : World) (id : string) (req : request) (s : state) :
    state → Prop :=
  | no_input :
      truthy (body_field (req_body req) "youtubeUrl") = false →
      truthy (uploaded_path req) = false →
      transcribe_case w id req s (rejected (reset_vars s))
  | download_failed e s1 :
      truthy (body_field (req_body req) "youtubeUrl") = true →
      downloadYoutube w (body_field (req_body req) "youtubeUrl") id (reset_vars s)
        = (Throws e, s1) →
      transcribe_case w id req s (after_catch e s1)
  | downloaded p s1 r s2 :
      truthy (body_field (req_body req) "youtubeUrl") = true →
      downloadYoutube w (body_field (req_body req) "youtubeUrl") id (reset_vars s)
        = (Returns p, s1) →
      pipeline_case w id (JStr p) s1 r s2 →
      transcribe_case w id req s (settle r s2)
  | uploaded r s2 :
      truthy (body_field (req_body req) "youtubeUrl") = false →
      truthy (uploaded_path req) = true →
      pipeline_case w id (uploaded_path req) (reset_vars s) r s2 →
      transcribe_case w id req s (settle r s2).


(** *** Reading a csv record back

    Stripping the surrounding quotes of a record, then collapsing every
    doubled quote: the inverse the csv export is measured against. *)

Fixpoint drop_last (s : string) : string :=
  match s with
  | EmptyString => EmptyString
  | String c r =>
      match r with
      | EmptyString => EmptyString
      | String _ _ => String c (drop_last r)
      end
  end.

Definition strip_quotes (r : string) : string :=
  match r with
  | EmptyString => EmptyString
  | String _ inner => drop_last inner
  end.

Fixpoint collapse_quotes (s : string) : string :=
  match s with
  | EmptyString => EmptyString
  | String a r =>
      match r with
      | String b r' =>
          if Ascii.eqb a Str.DQUOTE && Ascii.eqb b Str.DQUOTE
          then String Str.DQUOTE (collapse_quotes r')
          else String a (collapse_quotes r)
      | EmptyString => String a EmptyString
      end
  end.

Definition csv_unquote (r : string) : string := collapse_quotes (strip_quotes r).

Fixpoint has_char (c : ascii) (s : string) : bool :=
  match s with
  | EmptyString => false
  | String a r => Ascii.eqb a c || has_char c r
  end.

Fixpoint ends_with_char (c : ascii) (s : string) : bool :=
  match s with
  | EmptyString => false
  | String a r =>
      match r with
      | EmptyString => Ascii.eqb a c
      | String _ _ => ends_with_char c r
      end
  end.

Definition starts_with_LF (s : string) : bool :=
  match s with
  | String c _ => Ascii.eqb c Str.LF
  | EmptyString => false
  end.

End Spec.

(** ** Concrete worlds and requests *)

Module Demo.
Import JS Server.

Definition video_url : jsval := JStr "https://www.youtube.com/watch?v=dQw4w9WgXcQ".

Definition accepts_url (u : jsval) : bool :=
  match u with
  | JStr s => String.prefix "https://www.youtube.com/watch?v=" s
  | _ => false
  end.

Definition transcription : jsval :=
  obj [("text", JStr "hello world"); ("language", JStr "en")].

Definition completion : jsval :=
  obj [("choices",
        JArr [obj [("message", obj [("role", JStr "assistant");
                                    ("content", JStr "# Summary")])]])].

(** Every library works and yt-dlp is not installed. *)
Definition studio : World := {|
  tmp_dir := "/srv/tmp";
  ytdl_validateURL := accepts_url;
  ytdl_getInfo := λ _, Returns tt;
  ytdl_download := λ _ dest, (Returns tt, [dest]);
  ytdlp := None;
  ffmpeg_save := λ _ _ out, (Returns tt, [out]);
  groq_transcribe := λ _, Returns transcription;
  groq_chat := λ _ _, Returns completion;
  unlink_error := λ _, None;
  packer_toBuffer := λ _, Returns "PK"
|}.

(** ytdl-core fails on the network, yt-dlp is installed and writes an mp3. *)
Definition resilient : World := {|
  tmp_dir := "/srv/tmp";
  ytdl_validateURL := accepts_url;
  ytdl_getInfo := λ _, Throws (new_Error "socket hang up");
  ytdl_download := λ _ dest, (Returns tt, [dest]);
  ytdlp := Some (λ _ _, (Returns tt, ["/srv/tmp/id1.mp3"]));
  ffmpeg_save := λ _ _ out, (Returns tt, [out]);
  groq_transcribe := λ _, Returns transcription;
  groq_chat := λ _ _, Returns completion;
  unlink_error := λ _, None;
  packer_toBuffer := λ _, Returns "PK"
|}.

(** ytdl-core cannot decipher the page and yt-dlp is not installed. *)
Definition outdated : World := {|
  tmp_dir := "/srv/tmp";
  ytdl_validateURL := accepts_url;
  ytdl_getInfo := λ _, Throws (new_Error "Could not extract functions");
  ytdl_download := λ _ dest, (Returns tt, [dest]);
  ytdlp := None;
  ffmpeg_save := λ _ _ out, (Returns tt, [out]);
  groq_transcribe := λ _, Returns transcription;
  groq_chat := λ _ _, Returns completion;
  unlink_error := λ _, None;
  packer_toBuffer := λ _, Returns "PK"
|}.

(** ytdl-core fails on the network and yt-dlp is not installed. *)
Definition offline : World := {|
  tmp_dir := "/srv/tmp";
  ytdl_validateURL := accepts_url;
  ytdl_getInfo := λ _, Throws (new_Error "socket hang up");
  ytdl_download := λ _ dest, (Returns tt, [dest]);
  ytdlp := None;
  ffmpeg_save := λ _ _ out, (Returns tt, [out]);
  groq_transcribe := λ _, Returns transcription;
  groq_chat := λ _ _, Throws (new_Error "Connection error.");
  unlink_error := λ _, None;
  packer_toBuffer := λ _, Throws (new_Error "out of memory")
|}.

(** The disk refuses every deletion. *)
Definition read_only : World := {|
  tmp_dir := "/srv/tmp";
  ytdl_validateURL := accepts_url;
  ytdl_getInfo := λ _, Returns tt;
  ytdl_download := λ _ dest, (Returns tt, [dest]);
  ytdlp := None;
  ffmpeg_save := λ _ _ out, (Returns tt, [out]);
  groq_transcribe := λ _, Returns transcription;
  groq_chat := λ _ _, Returns completion;
  unlink_error := λ _, Some "EPERM: operation not permitted";
  packer_toBuffer := λ _, Returns "PK"
|}.

Definition link_request : request :=
  mkRequest (obj [("youtubeUrl", video_url)]) None.

Definition upload : string := "/srv/tmp/upload-7.wav".

Definition both_request : request :=
  mkRequest (obj [("youtubeUrl", video_url)]) (Some upload).

Definition broken_link_request : request :=
  mkRequest (obj [("youtubeUrl", JStr "not a link")]) None.

Definition qa_body : jsval :=
  obj [("question", JStr "What is said?"); ("transcript", JStr "hello world")].

End Demo.

(** ** The replies of the transcribe handler *)

Module Reply.
Import JS Server.

(** The body a handler sent, when it is the argument of [res.json]. *)
Definition json_body (r : response) : jsval :=
  match sent r with
  | Some (BJson v) => v
  | _ => JUndefined
  end.


(** The three object literals the transcribe handler passes to [res.json]. *)
Definition rejected_body : jsval := obj [("error", JStr no_input_message)].

Definition failure_body (e : jsval) : jsval :=
  obj [("error", JStr "Transcription failed");
       ("details", error_details e);
       ("hint", if Str.includes failure_signature (to_string (error_details e))
                then JStr hint_message else JUndefined)].

Definition success_body (id : string) (t : jsval) : jsval :=
  obj [("id", JStr id);
       ("text", js_or (opt_prop t "text") (JStr EmptyString));
       ("transcription", t)].

(** The response of the transcribe handler, by the way its [try] block
    ended: thrown into the [catch] block, returned after the transcription
    [t], or returned from the branch without an input. *)
Definition transcribe_reply (w : World) (id : string) (req : request)
    (r : outcome unit) : option response :=
  match r with
  | Throws e => Some (mkResponse 500 ∅ (Some (BJson (failure_body e))))
  | Returns _ =>
      if truthy (body_field (req_body req) "youtubeUrl") || truthy (uploaded_path req)
      then match groq_transcribe w (wav_path w id) with
           | Returns t => Some (mkResponse 200 ∅ (Some (BJson (success_body id t))))
           | Throws _ => None
           end
      else Some (mkResponse 400 ∅ (Some (BJson rejected_body)))
  end.

End Reply.

(** ** The storage of uploads *)

Module Storage.
Import JS Server.

(** The [filename] callback of the multer storage: [id] is the value
    [uuidv4()] returns there, [extname] is [path.extname]. *)
Definition filename (extname : string → string) (id originalname : string) : string :=
  let ext := match extname originalname with
             | EmptyString => ".wav"
             | e => e
             end in
  id +:+ ext.

(** [req.file.path]: the name under the [destination], which is [TMP_DIR]. *)
Definition stored_path (w : World) (extname : string → string)
    (id originalname : string) : string :=
  path_join (tmp_dir w) (filename extname id originalname).

End Storage.

(** ** Reading a csv export back *)

Module Decode.
Import Str.

(** The text with every CR LF replaced by LF. *)
Fixpoint crlf_to_lf (s : string) : string :=
  match s with
  | EmptyString => EmptyString
  | String c r =>
      match r with
      | String c' r' =>
          if Ascii.eqb c CR && Ascii.eqb c' LF
          then String LF (crlf_to_lf r')
          else String c (crlf_to_lf r)
      | EmptyString => String c EmptyString
      end
  end.

Fixpoint has_crlf (s : string) : bool :=
  match s with
  | EmptyString => false
  | String c r => (Ascii.eqb c CR && Spec.starts_with_LF r) || has_crlf r
  end.

End Decode.

(** ** markdownToHtml *)

Module Markdown.
Import Str.

(** A character of a [string] is a code unit of the text; the texts are
    those whose code units are below 256.  Among these the line terminators
    are LF and CR, and the white space of [\s] is TAB, LF, VT, FF, CR, the
    space and the no-break space. *)
Definition line_terminator (c : ascii) : bool := Ascii.eqb c LF || Ascii.eqb c CR.

(** The classes [.], [\s], [\d] and [\n]. *)
Definition any (c : ascii) : bool := negb (line_terminator c).

Definition space (c : ascii) : bool :=
  let n := nat_of_ascii c in
  (Nat.leb 9 n && Nat.leb n 13) || Nat.eqb n 32 || Nat.eqb n 160.

Definition digit (c : ascii) : bool :=
  let n := nat_of_ascii c in Nat.leb 48 n && Nat.leb n 57.

Definition newline (c : ascii) : bool := Ascii.eqb c LF.

(** The regular expressions of [markdownToHtml] are sequences of these:
    a character, a class, an optional class [x?], a repeated class ([x*],
    [x+], [x{n,}], lazy when not [greedy]), the assertions [^] and [$] under
    the flag [m], and the parentheses of the one group. *)
Inductive atom : Type :=
  | Lit (c : ascii)
  | One (p : ascii → bool)
  | Opt (p : ascii → bool)
  | Rep (min : nat) (p : ascii → bool) (greedy : bool)
  | Bol
  | Eol
  | Open
  | Close.

(** A match: the text of the group and the text after the match. *)
Record found : Type := mkFound {
  group : string;
  rest : string
}.

(** The match after the character [x] was consumed, inside the group when
    [g]. *)
Definition took (g : bool) (x : ascii) (r : option found) : option found :=
  match r with
  | Some f => Some (mkFound (if g then String x (group f) else group f) (rest f))
  | None => None
  end.

(** Backtracking: the first alternative that matches. *)
Definition orelse (a b : option found) : option found :=
  match a with
  | Some _ => a
  | None => b
  end.

(** [^] and [$] under [m]: [prev] is the character before the position,
    [s] the text from it. *)
Definition at_bol (prev : option ascii) : bool :=
  match prev with
  | None => true
  | Some c => line_terminator c
  end.

Definition at_eol (s : string) : bool :=
  match s with
  | EmptyString => true
  | String c _ => line_terminator c
  end.

(** A repeated class followed by the continuation [k]. *)
Fixpoint rep (k : option ascii → string → option found) (min : nat)
    (p : ascii → bool) (greedy g : bool) (prev : option ascii) (s : string)
    : option found :=
  let more := match s with
              | String x r =>
                  if p x then took g x (rep k (Nat.pred min) p greedy g (Some x) r)
                  else None
              | EmptyString => None
              end in
  match min with
  | O => if greedy then orelse more (k prev s) else orelse (k prev s) more
  | S _ => more
  end.

(** The match of [re] at a position, if any, with the priorities of a
    backtracking matcher. *)
Fixpoint matches (re : list atom) (g : bool) (prev : option ascii) (s : string)
    : option found :=
  match re with
  | [] => Some (mkFound EmptyString s)
  | a :: k =>
      match a with
      | Lit c =>
          match s with
          | String x r =>
              if Ascii.eqb x c then took g x (matches k g (Some x) r) else None
          | EmptyString => None
          end
      | One p =>
          match s with
          | String x r => if p x then took g x (matches k g (Some x) r) else None
          | EmptyString => None
          end
      | Opt p =>
          orelse
            match s with
            | String x r => if p x then took g x (matches k g (Some x) r) else None
            | EmptyString => None
            end
            (matches k g prev s)
      | Rep min p greedy => rep (matches k g) min p greedy g prev s
      | Bol => if at_bol prev then matches k g prev s else None
      | Eol => if at_eol s then matches k g prev s else None
      | Open => matches k true prev s
      | Close => matches k false prev s
      end
  end.

(** A replacement text: literal text and [$1]. *)
Inductive piece : Type :=
  | Text (s : string)
  | Group1.

Fixpoint expand (tpl : list piece) (f : found) : string :=
  match tpl with
  | [] => EmptyString
  | Text s :: k => s +:+ expand k f
  | Group1 :: k => group f +:+ expand k f
  end.

(** [s.replace(/re/g, tpl)] from a position on: [skip] characters of the
    last match are still to pass.  After an empty match the search moves on
    by one character, which is kept. *)
Fixpoint scan (re : list atom) (tpl : list piece) (prev : option ascii)
    (skip : nat) (s : string) : string :=
  match skip with
  | S n =>
      match s with
      | String c r => scan re tpl (Some c) n r
      | EmptyString => EmptyString
      end
  | O =>
      match matches re false prev s with
      | Some f =>
          expand tpl f
          +:+ match s with
              | String c r =>
                  match (String.length s - String.length (rest f))%nat with
                  | O => String c (scan re tpl (Some c) 0 r)
                  | S n => scan re tpl (Some c) n r
                  end
              | EmptyString => EmptyString
              end
      | None =>
          match s with
          | String c r => String c (scan re tpl (Some c) 0 r)
          | EmptyString => EmptyString
          end
      end
  end.

Definition replace_all (re : list atom) (tpl : list piece) (s : string) : string :=
  scan re tpl None 0 s.

(** The seven expressions, in the order of the source. *)
Definition h3 : list atom :=
  [Bol; Lit "#"; Lit "#"; Lit "#"; Opt space; Open; Rep 0 any true; Close; Eol].
Definition h2 : list atom :=
  [Bol; Lit "#"; Lit "#"; Opt space; Open; Rep 0 any true; Close; Eol].
Definition h1 : list atom :=
  [Bol; Lit "#"; Opt space; Open; Rep 0 any true; Close; Eol].
Definition strong : list atom :=
  [Lit "*"; Lit "*"; Open; Rep 0 any false; Close; Lit "*"; Lit "*"].
Definition ul : list atom :=
  [Lit LF; Lit "-"; One space; Open; Rep 0 any true; Close].
Definition ol : list atom :=
  [Lit LF; Rep 1 digit true; Lit "."; One space; Open; Rep 0 any true; Close].
Definition br : list atom := [Rep 2 newline true].

Definition markdownToHtml (md : string) : string :=
  let html := md in
  let html := replace_all h3 [Text "<h3>"; Group1; Text "</h3>"] html in
  let html := replace_all h2 [Text "<h2>"; Group1; Text "</h2>"] html in
  let html := replace_all h1 [Text "<h1>"; Group1; Text "</h1>"] html in
  let html := replace_all strong [Text "<strong>"; Group1; Text "</strong>"] html in
  let html := replace_all ul [Text "<ul><li>"; Group1; Text "</li></ul>"] html in
  let html := replace_all ol [Text "<ol><li>"; Group1; Text "</li></ol>"] html in
  let html := replace_all br [Text "<br/>"] html in
  html.

(** *** Texts *)

(** A text without marks: no [#], no star, no line feed. *)
Definition plain (s : string) : bool :=
  negb (Spec.has_char "#" s || Spec.has_char "*" s || Spec.has_char LF s).


Fixpoint all_chars (p : ascii → bool) (s : string) : bool :=
  match s with
  | EmptyString => true
  | String c r => p c && all_chars p r
  end.

(** The text starts like an item of a list: with a dash or a digit. *)
Definition starts_item (s : string) : bool :=
  match s with
  | String x _ => Ascii.eqb x "-" || digit x
  | EmptyString => false
  end.

(** Every match of the expression starts with the character [c]. *)
Definition starts_with (re : list atom) (c : ascii) : Prop :=
  ∀ prev s,
    match s with
    | String x _ => x ≠ c
    | EmptyString => True
    end →
    matches re false prev s = None.

End Markdown.

(** ** The script of the page *)

Module Client.
Import JS Server Spec.
























(** The theme: whether the body has the class [light], and what
    [localStorage] holds under the key [theme]. *)
Record theme : Type := mkTheme {
  light : bool;
  stored : option string
}.

Definition setTheme (mode : string) (t : theme) : theme :=
  mkTheme (String.eqb mode "light") (Some mode).

(** Loading the page: [setTheme(localStorage.getItem("theme") || "dark")]. *)
Definition load_theme (t : theme) : theme :=
  setTheme (match stored t with
            | Some m => if truthy (JStr m) then m else "dark"
            | None => "dark"
            end) t.

(** A click on the theme toggle. *)
Definition toggle_theme (t : theme) : theme :=
  setTheme (if light t then "dark" else "light") t.



End Client.

(** * Properties *)

Import JS Str Server Spec.
Local Open Scope list_scope.

(** ** Strings *)

Lemma append_cons x (r b : string) : String x r +:+ b = String x (r +:+ b).
Proof. reflexivity. Qed.

Lemma append_assoc (a b c : string) : (a +:+ b) +:+ c = a +:+ (b +:+ c).
Proof. induction a as [|x r IH]; [done|]. by rewrite !append_cons, IH. Qed.

Lemma prefix_append a b : String.prefix a (a +:+ b) = true.
Proof.
  induction a as [|c r IH]; [by destruct b|].
  simpl. destruct (ascii_dec c c); [exact IH | done].
Qed.

Lemma startsWith_id_ext id ext :
  startsWith (id +:+ "." +:+ ext) (id +:+ ".") = true.
Proof. unfold startsWith. rewrite <- append_assoc. apply prefix_append. Qed.

Lemma truthy_JStr f : truthy (JStr f) = true ↔ f ≠ EmptyString.
Proof.
  cbn. destruct (String.eqb_spec f EmptyString); cbn; split; done.
Qed.



(** *** The csv export *)

Lemma drop_last_snoc s c : drop_last (s +:+ String c EmptyString) = s.
Proof.
  induction s as [|a r IH]; [reflexivity|].
  rewrite append_cons. cbn [drop_last]. rewrite IH. by destruct r.
Qed.

Lemma collapse_double_quotes l : collapse_quotes (double_quotes l) = l.
Proof.
  induction l as [|c r IH]; [reflexivity|].
  cbn [double_quotes].
  destruct (Ascii.eqb_spec c DQUOTE) as [->|Hc].
  - cbn [collapse_quotes]. rewrite Ascii.eqb_refl. cbn [andb]. by rewrite IH.
  - cbn [collapse_quotes]. rewrite IH.
    destruct (double_quotes r) eqn:E.
    + destruct r as [|a r']; [done|]. cbn in E. by destruct (Ascii.eqb a DQUOTE).
    + by destruct (Ascii.eqb_spec c DQUOTE).
Qed.

Lemma csv_unquote_quote l : csv_unquote (csv_quote l) = l.
Proof.
  unfold csv_unquote, csv_quote, strip_quotes.
  by rewrite drop_last_snoc, collapse_double_quotes.
Qed.

Lemma split_lines_cons c r :
  split_lines (String c r) =
    if Ascii.eqb c LF then EmptyString :: split_lines r
    else if Ascii.eqb c CR && starts_with_LF r then split_lines r
    else push_front c (split_lines r).
Proof.
  cbn [split_lines]. destruct (Ascii.eqb c LF); [done|].
  destruct r as [|c' r']; cbn [starts_with_LF].
  - by rewrite andb_false_r.
  - destruct (Ascii.eqb c CR), (Ascii.eqb c' LF) eqn:E; cbn [andb]; try done.
    cbn [split_lines]. by rewrite E.
Qed.

Lemma split_lines_nonempty s : split_lines s ≠ [].
Proof.
  induction s as [|c r IH]; [done|].
  rewrite split_lines_cons.
  destruct (Ascii.eqb c LF); [done|].
  destruct (Ascii.eqb c CR && starts_with_LF r); [done|].
  by destruct (split_lines r).
Qed.

Lemma split_lines_no_LF s :
  Forall (λ l, has_char LF l = false) (split_lines s).
Proof.
  induction s as [|c r IH]; [by repeat constructor|].
  rewrite split_lines_cons.
  destruct (Ascii.eqb c LF) eqn:Ec; [by constructor|].
  destruct (Ascii.eqb c CR && starts_with_LF r); [done|].
  destruct (split_lines r) as [|l ls]; cbn [push_front].
  - repeat constructor. cbn. by rewrite Ec.
  - inversion IH; subst. constructor; [|done]. cbn. by rewrite Ec.
Qed.

Lemma split_lines_one x : has_char LF x = false → split_lines x = [x].
Proof.
  induction x as [|c r IH]; [done|].
  cbn [has_char]. intros [Hc Hr]%orb_false_elim.
  rewrite split_lines_cons, Hc.
  destruct r as [|c' r']; cbn [starts_with_LF].
  - by rewrite andb_false_r.
  - cbn [has_char] in Hr. apply orb_false_elim in Hr as [Hc' Hr'].
    rewrite Hc', andb_false_r, IH; [done|]. cbn. by rewrite Hc', Hr'.
Qed.

Lemma split_lines_app x rest :
  has_char LF x = false → ends_with_char CR x = false →
  split_lines (x +:+ String LF rest) = x :: split_lines rest.
Proof.
  induction x as [|c r IH]; intros Hx He.
  - change (EmptyString +:+ String LF rest) with (String LF rest).
    by rewrite split_lines_cons, Ascii.eqb_refl.
  - rewrite append_cons.
    cbn [has_char] in Hx. apply orb_false_elim in Hx as [Hc Hr].
    rewrite split_lines_cons, Hc.
    destruct r as [|c' r'].
    + cbn [ends_with_char] in He.
      change (EmptyString +:+ String LF rest) with (String LF rest).
      cbn [starts_with_LF]. rewrite He. cbn [andb].
      by rewrite split_lines_cons, Ascii.eqb_refl.
    + rewrite append_cons at 1. cbn [starts_with_LF].
      pose proof Hr as Hr0. cbn [has_char] in Hr0.
      apply orb_false_elim in Hr0 as [Hc' _].
      rewrite Hc', andb_false_r, IH; done.
Qed.


Lemma has_char_app c a b : has_char c (a +:+ b) = has_char c a || has_char c b.
Proof.
  induction a as [|x r IH]; [done|].
  rewrite append_cons. cbn [has_char]. by rewrite IH, orb_assoc.
Qed.

Lemma has_char_double_quotes l :
  has_char LF (double_quotes l) = has_char LF l.
Proof.
  induction l as [|c r IH]; [done|].
  cbn [double_quotes]. destruct (Ascii.eqb_spec c DQUOTE) as [->|Hc];
    cbn [has_char]; by rewrite IH.
Qed.

Lemma csv_quote_no_LF l : has_char LF (csv_quote l) = has_char LF l.
Proof.
  unfold csv_quote. cbn [has_char].
  rewrite has_char_app, has_char_double_quotes.
  cbn. by rewrite orb_false_r.
Qed.

Lemma ends_with_char_snoc c s d :
  ends_with_char c (s +:+ String d EmptyString) = Ascii.eqb d c.
Proof.
  induction s as [|a r IH]; [done|].
  rewrite append_cons. cbn [ends_with_char]. rewrite IH. by destruct r.
Qed.

Lemma csv_quote_not_CR l : ends_with_char CR (csv_quote l) = false.
Proof.
  unfold csv_quote. rewrite <- append_cons. by rewrite ends_with_char_snoc.
Qed.

Lemma split_csv_of_lines ls :
  ls ≠ [] → Forall (λ l, has_char LF l = false) ls →
  split_lines (csv_of_lines ls) = map csv_quote ls.
Proof.
  unfold csv_of_lines.
  induction ls as [|l ls IH]; [done|]. intros _ Hall.
  inversion Hall as [|? ? Hl Hls]; subst.
  destruct ls as [|l' ls'].
  - cbn [map join]. apply split_lines_one. by rewrite csv_quote_no_LF.
  - change (join nl (map csv_quote (l :: l' :: ls')))
      with (csv_quote l +:+ nl +:+ join nl (map csv_quote (l' :: ls'))).
    change (nl +:+ ?x) with (String LF x).
    rewrite split_lines_app, IH; try done.
    + by rewrite csv_quote_no_LF.
    + apply csv_quote_not_CR.
Qed.

Example split_lines_mixed :
  split_lines ("a" +:+ String CR (String LF "b") +:+ String LF ("c" +:+ String CR "d"))
  = ["a"; "b"; "c" +:+ String CR "d"].
Proof. reflexivity. Qed.

Example csv_of_two_lines :
  csv_of_lines (split_lines ("say " +:+ String DQUOTE ("hi" +:+ String DQUOTE (String LF "bye"))))
  = String DQUOTE ("say " +:+ String DQUOTE (String DQUOTE ("hi" +:+
      String DQUOTE (String DQUOTE (String DQUOTE (String LF
        (String DQUOTE ("bye" +:+ String DQUOTE EmptyString)))))))).
Proof. reflexivity. Qed.


(** ** The cleanup helper *)

Ltac unfold_monad :=
  repeat (progress unfold run_tool, write_files, res_status, res_json,
            res_send, res_setHeader, res_end, update_res);
  unfold bind, try_catch, try_finally, ret, throw, emit, get_vars, set_vars,
    lift_outcome;
  cbn [fst snd files log res vars workingInputPath mp4Path wavPath
       status headers sent].

Ltac solve_extends :=
  repeat split; cbn [files log res vars];
  [ intros ? ?; rewrite ?elem_of_app; auto
  | eexists; split; [rewrite <- ?app_assoc; reflexivity | reflexivity] ].

Lemma safeUnlink_cases w p s :
  ∃ s', safeUnlink w p s = (Returns tt, s') ∧ unlink_case w p s s'.
Proof.
  unfold safeUnlink. destruct (truthy p) eqn:Ht; cbn [negb].
  2:{ eexists; split; [reflexivity|]. by apply unlink_skipped. }
  unfold existsSync, unlinkSync. unfold_monad.
  destruct p as [| |b|n|f|l|o|nm ms];
    try (eexists; split; [reflexivity|]; by apply unlink_absent).
  cbn [to_string].
  destruct (bool_decide (f ∈ files s)) eqn:Hin.
  - apply bool_decide_eq_true in Hin. rewrite bool_decide_eq_true_2 by done.
    apply truthy_JStr in Ht.
    destruct (unlink_error w f) as [msg|] eqn:Hu; simpl.
    + eexists; split; [reflexivity|].
      eapply unlink_failed; eauto. by rewrite <- !app_assoc.
    + eexists; split; [reflexivity|].
      eapply unlink_done; eauto. by rewrite <- !app_assoc.
  - apply bool_decide_eq_false in Hin.
    eexists; split; [reflexivity|]. apply unlink_absent; [done| |done].
    by intros ? [= ->].
Qed.

Section UnlinkFacts.
Context (w : World) (p : jsval) (s s' : state) (H : unlink_case w p s s').

Lemma unlink_case_res : res s' = res s.
Proof. destruct H; by subst. Qed.

Lemma unlink_case_vars : vars s' = vars s.
Proof. destruct H; by subst. Qed.

Lemma unlink_case_log :
  ∃ evs, log s' = log s ++ evs ∧ forallb cleanup_event evs = true.
Proof.
  destruct H; subst; cbn [log].
  - exists []. by rewrite app_nil_r.
  - by eexists.
  - by eexists.
  - by eexists.
Qed.

Lemma unlink_case_files_sub f : f ∈ files s' → f ∈ files s.
Proof.
  destruct H; subst; cbn [files]; try done.
  by intros [_ ?]%list_elem_of_filter.
Qed.

Lemma unlink_case_keeps f : f ∈ files s → p ≠ JStr f → f ∈ files s'.
Proof.
  intros Hf Hp. destruct H; subst; cbn [files]; try done.
  apply list_elem_of_filter. split; [|done]. congruence.
Qed.

Lemma unlink_case_deleted f :
  p = JStr f → f ≠ EmptyString → unlink_error w f = None → f ∉ files s'.
Proof.
  intros -> Hne Hu.
  destruct H as [Ht| ? Habs|g ? ? ? ?|g msg ? ? ? ?]; subst; cbn [files].
  - apply truthy_JStr in Hne. congruence.
  - by apply Habs.
  - simplify_eq. by intros [? _]%list_elem_of_filter.
  - simplify_eq.
Qed.

Lemma unlink_case_falsy : truthy p = false → s' = s.
Proof.
  intros Hp.
  destruct H as [? ?|? ? ?|f -> Hne ? ? ?|f msg -> Hne ? ? ?]; try congruence.
  - apply truthy_JStr in Hne. congruence.
  - apply truthy_JStr in Hne. congruence.
Qed.

Lemma unlink_case_attempt f :
  p = JStr f → f ≠ EmptyString → EvExists (JStr f) ∈ log s'.
Proof.
  intros -> Hne.
  destruct H as [Ht| ? Habs|g ? ? ? ?|g msg ? ? ? ?]; subst; cbn [log].
  - apply truthy_JStr in Hne. congruence.
  - set_solver.
  - set_solver.
  - set_solver.
Qed.
End UnlinkFacts.

Lemma transcribe_cleanup_cases w u s :
  ∃ s1 s2 s3,
    transcribe_cleanup w u s = (Returns tt, s3)
    ∧ unlink_case w (mp4Path (vars s)) s s1
    ∧ unlink_case w (wavPath (vars s)) s1 s2
    ∧ unlink_case w u s2 s3.
Proof.
  unfold transcribe_cleanup. unfold bind at 1. unfold get_vars.
  destruct (safeUnlink_cases w (mp4Path (vars s)) s) as (s1 & E1 & C1).
  destruct (safeUnlink_cases w (wavPath (vars s)) s1) as (s2 & E2 & C2).
  destruct (safeUnlink_cases w u s2) as (s3 & E3 & C3).
  exists s1, s2, s3. unfold bind. by rewrite E1, E2, E3.
Qed.

(** ** The download *)

Lemma extends_refl P s : extends P s s.
Proof. split_and!; try done. exists []. by rewrite app_nil_r. Qed.

Lemma extends_trans P s1 s2 s3 :
  extends P s1 s2 → extends P s2 s3 → extends P s1 s3.
Proof.
  intros (R1 & V1 & F1 & evs1 & L1 & A1) (R2 & V2 & F2 & evs2 & L2 & A2).
  split_and!; [congruence | congruence | auto |].
  exists (evs1 ++ evs2). split.
  - by rewrite L2, L1, app_assoc.
  - by rewrite forallb_app, A1, A2.
Qed.

Lemma ytdl_primary_extends w url id s r s' :
  ytdl_primary w url (mp4_path w id) s = (r, s') →
  extends download_event s s' ∧ names_under w id r.
Proof.
  unfold ytdl_primary, mp4_path, names_under. unfold_monad.
  destruct (ytdl_getInfo w url) as [[]|e1].
  - destruct (ytdl_download w url _) as [[[]|e2] written]; cbn [fst snd];
      intros [= <- <-]; (split; [solve_extends|]); [|done].
    intros p [= <-]. eexists; split; [|reflexivity].
    apply (startsWith_id_ext id "mp4").
  - intros [= <- <-]. split; [solve_extends|done].
Qed.

Lemma ytdlp_fallback_extends w run url id s r s' :
  ytdlp_fallback w run url id s = (r, s') →
  extends download_event s s' ∧ names_under w id r.
Proof.
  unfold ytdlp_fallback, readdirSync, names_under. unfold_monad.
  destruct (run url (out_template w id)) as [[[]|e] written]; cbn [fst snd].
  - match goal with |- context [List.find ?f ?l] =>
      destruct (List.find f l) as [found|] eqn:Hfind end.
    + destruct (truthy (JStr found)); cbn [negb];
        intros [= <- <-]; (split; [solve_extends|]); [|done].
      intros p [= <-]. exists found. split; [|done].
      by apply find_some in Hfind as [_ ?].
    + intros [= <- <-]. split; [solve_extends|done].
  - intros [= <- <-]. split; [solve_extends|done].
Qed.

Lemma download_recover_extends w url id err s r s' :
  download_recover w url id err s = (r, s') →
  extends download_event s s' ∧ names_under w id r.
Proof.
  unfold download_recover. unfold bind at 1.
  unfold ytdlp_installed.
  destruct (ytdlp w) as [run|] eqn:Hy; cbn [negb].
  - rewrite Tauto.if_same. unfold ret at 1.
    apply ytdlp_fallback_extends.
  - destruct (includes_ci _ _); cbn [negb]; unfold ret, throw;
      intros [= <- <-]; (split; [apply extends_refl | done]).
Qed.

Lemma downloadYoutube_extends w url id s r s' :
  downloadYoutube w url id s = (r, s') →
  extends download_event s s' ∧ names_under w id r.
Proof.
  unfold downloadYoutube.
  destruct (ytdl_validateURL w url); cbn [negb].
  2:{ unfold throw. intros [= <- <-]. split; [apply extends_refl | done]. }
  unfold try_catch.
  destruct (ytdl_primary w url (mp4_path w id) s) as [[p|e] s1] eqn:Hp.
  - intros [= <- <-]. eapply ytdl_primary_extends, Hp.
  - intros Hr. apply ytdl_primary_extends in Hp as [Hp _].
    apply download_recover_extends in Hr as [Hr Hn].
    split; [by eapply extends_trans | done].
Qed.

(** ** The transcribe handler, case by case *)

Lemma pipeline_cases w id input s :
  ∃ r s',
    (set_vars (λ v, mkLocals input (mp4Path v) (wavPath v)) ;;
     convert_and_transcribe w id) s = (r, s')
    ∧ pipeline_case w id input s r s'.
Proof.
  unfold convert_and_transcribe, convertToWav, transcribeWithGroq. unfold_monad.
  destruct (ffmpeg_save w input wav_output_options (wav_path w id))
    as [[[]|e] written] eqn:Hf; cbn [fst snd].
  - destruct (groq_transcribe w (wav_path w id)) as [t|e] eqn:Hg;
      cbn [fst snd files log res vars status headers sent];
      rewrite <- app_assoc; do 2 eexists; (split; [reflexivity|]).
    + by eapply transcribed.
    + by eapply transcription_failed.
  - do 2 eexists. split; [reflexivity|]. by eapply convert_failed.
Qed.

Lemma transcribe_catch_returns e s :
  transcribe_catch e s = (Returns tt, after_catch e s).
Proof. reflexivity. Qed.

Lemma transcribe_body_cases w id req s :
  ∃ sb,
    try_catch
      (transcribe_try w id (body_field (req_body req) "youtubeUrl")
         (uploaded_path req))
      transcribe_catch (reset_vars s) = (Returns tt, sb)
    ∧ transcribe_case w id req s sb.
Proof.
  unfold transcribe_try, try_catch.
  destruct (truthy (body_field (req_body req) "youtubeUrl")) eqn:Hurl.
  - unfold bind at 1.
    destruct (downloadYoutube _ _ _ _) as [[p|e] s1] eqn:Hd.
    + destruct (pipeline_cases w id (JStr p) s1) as (r & s2 & -> & Hc).
      exists (settle r s2). split; [by destruct r as [[]|?]|].
      by eapply downloaded.
    + eexists. split; [apply transcribe_catch_returns|].
      by eapply download_failed.
  - destruct (truthy (uploaded_path req)) eqn:Hup.
    + destruct (pipeline_cases w id (uploaded_path req) (reset_vars s))
        as (r & s2 & -> & Hc).
      exists (settle r s2). split; [by destruct r as [[]|?]|].
      by eapply uploaded.
    + eexists. split; [reflexivity|]. by apply no_input.
Qed.

(** Whatever state [sb] the [try] and [catch] blocks leave, the handler ends
    with the three [safeUnlink] calls of the [finally] block. *)
Lemma transcribe_finally w id req s sb :
  try_catch
    (transcribe_try w id (body_field (req_body req) "youtubeUrl")
       (uploaded_path req))
    transcribe_catch (reset_vars s) = (Returns tt, sb) →
  ∃ s1 s2 s3,
    transcribe w id req s = (Returns tt, s3)
    ∧ unlink_case w (mp4Path (vars sb)) sb s1
    ∧ unlink_case w (wavPath (vars sb)) s1 s2
    ∧ unlink_case w (uploaded_path req) s2 s3.
Proof.
  intros Hb.
  destruct (transcribe_cleanup_cases w (uploaded_path req) sb)
    as (s1 & s2 & s3 & Hclean & U1 & U2 & U3).
  exists s1, s2, s3. split_and!; try done.
  unfold transcribe. unfold bind at 1. unfold set_vars at 1.
  unfold try_finally. fold (reset_vars s). by rewrite Hb, Hclean.
Qed.

Lemma transcribe_run w id req s :
  ∃ sb s1 s2 s3,
    transcribe w id req s = (Returns tt, s3)
    ∧ transcribe_case w id req s sb
    ∧ unlink_case w (mp4Path (vars sb)) sb s1
    ∧ unlink_case w (wavPath (vars sb)) s1 s2
    ∧ unlink_case w (uploaded_path req) s2 s3.
Proof.
  destruct (transcribe_body_cases w id req s) as (sb & Hb & Hc).
  destruct (transcribe_finally w id req s sb Hb)
    as (s1 & s2 & s3 & E & U1 & U2 & U3).
  by exists sb, s1, s2, s3.
Qed.

(** ** What the cleanup helper guarantees *)

(** C10: [safeUnlink] always returns and never throws.  For a null or
    undefined path it leaves the state as it is, so it makes no file-system
    call.  It calls [unlinkSync] only for a file that exists, and then the
    file is gone; when [unlinkSync] throws, the error is logged with
    [console.warn] and the files stay.  In every case the response is the
    one the handler had chosen, and the [finally] block of the transcribe
    handler, made of three such calls, returns with that response. *)
Theorem safeUnlink_total_and_silent (w : World) (filePath : jsval) (s : state) :
  fst (safeUnlink w filePath s) = Returns tt
  ∧ res (snd (safeUnlink w filePath s)) = res s
  ∧ safeUnlink w JNull s = (Returns tt, s)
  ∧ safeUnlink w JUndefined s = (Returns tt, s)
  ∧ (∀ f, filePath = JStr f → f ∉ files s →
       files (snd (safeUnlink w filePath s)) = files s
       ∧ ∀ g, EvUnlink g ∈ log (snd (safeUnlink w filePath s)) → EvUnlink g ∈ log s)
  ∧ (∀ f, filePath = JStr f → f ≠ EmptyString → f ∈ files s →
       unlink_error w f = None →
       files (snd (safeUnlink w filePath s)) = filter (λ g, g ≠ f) (files s)
       ∧ log (snd (safeUnlink w filePath s))
         = log s ++ [EvExists filePath; EvUnlink f])
  ∧ (∀ f msg, filePath = JStr f → f ≠ EmptyString → f ∈ files s →
       unlink_error w f = Some msg →
       files (snd (safeUnlink w filePath s)) = files s
       ∧ log (snd (safeUnlink w filePath s))
         = log s ++ [EvExists filePath; EvUnlink f;
                     EvConsole "warn" [JStr "Failed to remove"; filePath; JStr msg]])
  ∧ (∀ u, fst (transcribe_cleanup w u s) = Returns tt
          ∧ res (snd (transcribe_cleanup w u s)) = res s)
  ∧ (∀ id req sb,
       try_catch
         (transcribe_try w id (body_field (req_body req) "youtubeUrl")
            (uploaded_path req))
         transcribe_catch (reset_vars s) = (Returns tt, sb) →
       fst (transcribe w id req s) = Returns tt
       ∧ res (snd (transcribe w id req s)) = res sb).
Proof.
  destruct (safeUnlink_cases w filePath s) as (s' & E & C). rewrite E.
  cbn [fst snd]. split_and!; try done.
  - by eapply unlink_case_res.
  - intros f -> Hf.
    destruct C as [? ->|? ? ->|g [= <-] ? ? ? ->|g msg [= <-] ? ? ? ->];
      cbn [files log]; try done.
    split; [done|]. intros g. rewrite elem_of_app. intros [?|Hg]; [done|].
    apply list_elem_of_singleton in Hg. discriminate.
  - intros f -> Hne Hf Hu.
    destruct C as [Ht ->|? Habs ->|g [= <-] ? ? ? ->|g msg [= <-] ? ? ? ->];
      cbn [files log]; try done.
    + apply truthy_JStr in Hne. congruence.
    + by destruct (Habs f).
    + congruence.
  - intros f msg -> Hne Hf Hu.
    destruct C as [Ht ->|? Habs ->|g [= <-] ? ? ? ->|g msg' [= <-] ? ? ? ->];
      cbn [files log]; try done.
    + apply truthy_JStr in Hne. congruence.
    + by destruct (Habs f).
    + congruence.
    + split; [done|]. congruence.
  - intros u.
    destruct (transcribe_cleanup_cases w u s) as (s1 & s2 & s3 & -> & U1 & U2 & U3).
    cbn [fst snd]. split; [done|].
    rewrite (unlink_case_res _ _ _ _ U3), (unlink_case_res _ _ _ _ U2).
    by eapply unlink_case_res.
  - intros id req sb Hb.
    destruct (transcribe_finally w id req s sb Hb)
      as (s1 & s2 & s3 & -> & U1 & U2 & U3).
    cbn [fst snd]. split; [done|].
    rewrite (unlink_case_res _ _ _ _ U3), (unlink_case_res _ _ _ _ U2).
    by eapply unlink_case_res.
Qed.

Example safeUnlink_refused :
  safeUnlink Demo.read_only (JStr Demo.upload) (initial_state [Demo.upload])
  = (Returns tt,
     mkState [Demo.upload]
       [EvExists (JStr Demo.upload); EvUnlink Demo.upload;
        EvConsole "warn" [JStr "Failed to remove"; JStr Demo.upload;
                          JStr "EPERM: operation not permitted"]]
       fresh_response (mkLocals JNull JNull JNull)).
Proof. reflexivity. Qed.

Example safeUnlink_removes :
  safeUnlink Demo.studio (JStr Demo.upload) (initial_state [Demo.upload; "/srv/tmp/other"])
  = (Returns tt,
     mkState ["/srv/tmp/other"]
       [EvExists (JStr Demo.upload); EvUnlink Demo.upload]
       fresh_response (mkLocals JNull JNull JNull)).
Proof. reflexivity. Qed.

(** ** Responses and calls of the transcribe handler *)

Lemma after_catch_eq e s :
  after_catch e s
  = mkState (files s)
      (log s ++ [EvConsole "error" [JStr "/api/transcribe error:"; e]])
      (mkResponse 500 (headers (res s))
         (Some (BJson (obj [("error", JStr "Transcription failed");
                            ("details", error_details e);
                            ("hint",
                             if includes failure_signature (to_string (error_details e))
                             then JStr hint_message else JUndefined)]))))
      (vars s).
Proof. reflexivity. Qed.

(** The three [safeUnlink] calls of the [finally] block, taken together. *)
Lemma cleanup_chain w a b c sb s1 s2 s3 :
  unlink_case w a sb s1 → unlink_case w b s1 s2 → unlink_case w c s2 s3 →
  res s3 = res sb
  ∧ vars s3 = vars sb
  ∧ (∀ f, f ∈ files s3 → f ∈ files sb)
  ∧ ∃ evs, log s3 = log sb ++ evs ∧ forallb cleanup_event evs = true.
Proof.
  intros U1 U2 U3. split_and!.
  - rewrite (unlink_case_res _ _ _ _ U3), (unlink_case_res _ _ _ _ U2).
    by eapply unlink_case_res.
  - rewrite (unlink_case_vars _ _ _ _ U3), (unlink_case_vars _ _ _ _ U2).
    by eapply unlink_case_vars.
  - intros f Hf. eapply unlink_case_files_sub; [exact U1|].
    eapply unlink_case_files_sub; [exact U2|].
    by eapply unlink_case_files_sub.
  - destruct (unlink_case_log _ _ _ _ U1) as (e1 & L1 & A1).
    destruct (unlink_case_log _ _ _ _ U2) as (e2 & L2 & A2).
    destruct (unlink_case_log _ _ _ _ U3) as (e3 & L3 & A3).
    exists (e1 ++ e2 ++ e3). split.
    + by rewrite L3, L2, L1, <- !app_assoc.
    + by rewrite !forallb_app, A1, A2, A3.
Qed.



(** A failure of the download, of the conversion or of the transcription
    call is what the [try] block throws. *)
Lemma stage_failures_raise w id req s e :
  let url := body_field (req_body req) "youtubeUrl" in
  let input_chosen input s1 :=
    (truthy url = true
     ∧ ∃ p, downloadYoutube w url id s = (Returns p, s1) ∧ input = JStr p)
    ∨ (truthy url = false ∧ truthy (uploaded_path req) = true
       ∧ s1 = s ∧ input = uploaded_path req) in
  (∀ s1, truthy url = true → downloadYoutube w url id s = (Throws e, s1) →
     transcribe_try w id url (uploaded_path req) s = (Throws e, s1))
  ∧ (∀ input s1 written, input_chosen input s1 →
       ffmpeg_save w input wav_output_options (wav_path w id) = (Throws e, written) →
       fst (transcribe_try w id url (uploaded_path req) s) = Throws e)
  ∧ (∀ input s1 written, input_chosen input s1 →
       ffmpeg_save w input wav_output_options (wav_path w id) = (Returns tt, written) →
       groq_transcribe w (wav_path w id) = Throws e →
       fst (transcribe_try w id url (uploaded_path req) s) = Throws e).
Proof.
  cbn zeta. unfold transcribe_try. split_and!.
  - intros s1 -> Hd. unfold bind at 1. by rewrite Hd.
  - intros input s1 written [[-> (p & Hd & ->)]|(-> & -> & -> & ->)] Hf.
    + unfold bind at 1. rewrite Hd.
      destruct (pipeline_cases w id (JStr p) s1) as (r & s2 & -> & Hc).
      destruct Hc; cbn [fst]; congruence.
    + destruct (pipeline_cases w id (uploaded_path req) s) as (r & s2 & -> & Hc).
      destruct Hc; cbn [fst]; congruence.
  - intros input s1 written [[-> (p & Hd & ->)]|(-> & -> & -> & ->)] Hf Hg.
    + unfold bind at 1. rewrite Hd.
      destruct (pipeline_cases w id (JStr p) s1) as (r & s2 & -> & Hc).
      destruct Hc; cbn [fst]; congruence.
    + destruct (pipeline_cases w id (uploaded_path req) s) as (r & s2 & -> & Hc).
      destruct Hc; cbn [fst]; congruence.
Qed.

(** C7: whatever the [try] block of the transcribe handler throws, the
    response has status 500 and a JSON body whose error is
    [Transcription failed] and whose details are the message of the thrown
    error (its string form when it has no message); the body has a hint
    exactly when the details contain [ytdl-core failed]. *)
Theorem transcribe_failure_response
    (w : World) (id : string) (req : request) (disk : list string)
    (e : jsval) (s1 : state) :
  transcribe_try w id (body_field (req_body req) "youtubeUrl")
    (uploaded_path req) (initial_state disk) = (Throws e, s1) →
  let r := res (snd (run (transcribe w id req) disk)) in
  let hint := if includes failure_signature (to_string (error_details e))
              then JStr hint_message else JUndefined in
  let body := obj [("error", JStr "Transcription failed");
                   ("details", error_details e); ("hint", hint)] in
  status r = 500
  ∧ sent r = Some (BJson body)
  ∧ prop body "error" = JStr "Transcription failed"
  ∧ prop body "details" = error_details e
  ∧ json_present body "hint"
    = includes failure_signature (to_string (error_details e))
  ∧ (truthy (opt_prop e "message") = true → error_details e = opt_prop e "message")
  ∧ (∀ name msg, e = JError name msg → msg ≠ EmptyString →
       error_details e = JStr msg).
Proof.
  intros Ht. cbn zeta.
  assert (try_catch
            (transcribe_try w id (body_field (req_body req) "youtubeUrl")
               (uploaded_path req))
            transcribe_catch (reset_vars (initial_state disk))
          = (Returns tt, after_catch e s1)) as Hb.
  { unfold try_catch. change (reset_vars (initial_state disk)) with (initial_state disk).
    by rewrite Ht. }
  unfold run.
  destruct (transcribe_finally w id req _ _ Hb) as (a & b & c & -> & U1 & U2 & U3).
  destruct (cleanup_chain _ _ _ _ _ _ _ _ U1 U2 U3) as (Hres & _).
  cbn [snd]. rewrite Hres, after_catch_eq. cbn [res status sent].
  split_and!; try done.
  - destruct (includes _ _); vm_compute; reflexivity.
  - unfold error_details, js_or. by intros ->.
  - intros name msg -> Hne. apply truthy_JStr in Hne.
    unfold error_details, js_or. cbn [opt_prop prop String.eqb Ascii.eqb Bool.eqb].
    by rewrite Hne.
Qed.

(** The hypothesis of C7 holds for a link that ytdl-core does not accept. *)
Lemma transcribe_failure_witness :
  status (res (snd (run (transcribe Demo.studio "id1" Demo.broken_link_request) [])))
  = 500
  ∧ error_details (new_Error "Invalid YouTube URL") = JStr "Invalid YouTube URL".
Proof.
  pose proof (transcribe_failure_response Demo.studio "id1"
                Demo.broken_link_request [] (new_Error "Invalid YouTube URL")
                (initial_state []) eq_refl) as H.
  cbn zeta in H. destruct H as (H500 & _ & _ & _ & _ & _ & Hmsg).
  split; [exact H500|]. apply (Hmsg "Error"); [reflexivity|discriminate].
Defined.

Example transcribe_failure_with_hint :
  res (snd (run (transcribe Demo.outdated "id1" Demo.link_request) []))
  = mkResponse 500 ∅
      (Some (BJson (obj [("error", JStr "Transcription failed");
                         ("details", JStr upgrade_message);
                         ("hint", JStr hint_message)]))).
Proof. vm_compute. reflexivity. Qed.

Example transcribe_failure_without_hint :
  res (snd (run (transcribe Demo.studio "id1" Demo.broken_link_request) []))
  = mkResponse 500 ∅
      (Some (BJson (obj [("error", JStr "Transcription failed");
                         ("details", JStr "Invalid YouTube URL");
                         ("hint", JUndefined)]))).
Proof. vm_compute. reflexivity. Qed.

(** C5: the transcribe handler answers 400 exactly when the request has
    neither a YouTube URL nor an uploaded file (its [youtubeUrl] and its
    file path are both falsy); a request without the field and without a
    file is such a request.  With a URL the handler starts with
    [downloadYoutube]; with a file only it starts with the conversion of
    that file; in both cases the status is 200 or 500. *)
Theorem transcribe_rejects_only_without_input
    (w : World) (id : string) (req : request) (disk : list string) :
  let url := body_field (req_body req) "youtubeUrl" in
  let final := snd (run (transcribe w id req) disk) in
  (status (res final) = 400
   ↔ truthy url = false ∧ truthy (uploaded_path req) = false)
  ∧ (url = JUndefined → req_file req = None →
       status (res final) = 400
       ∧ sent (res final) = Some (BJson (obj [("error", JStr no_input_message)]))
       ∧ log final = [])
  ∧ (truthy url = true →
       (status (res final) = 200 ∨ status (res final) = 500)
       ∧ ∃ r s1 evs,
           downloadYoutube w url id (initial_state disk) = (r, s1)
           ∧ log final = log s1 ++ evs)
  ∧ (truthy url = false → truthy (uploaded_path req) = true →
       (status (res final) = 200 ∨ status (res final) = 500)
       ∧ ∃ evs,
           log final
           = EvFfmpeg (uploaded_path req) wav_output_options (wav_path w id) :: evs).
Proof.
  cbn zeta. unfold run.
  destruct (transcribe_run w id req (initial_state disk))
    as (sb & s1 & s2 & s3 & -> & Hc & U1 & U2 & U3).
  cbn [snd].
  destruct (cleanup_chain _ _ _ _ _ _ _ _ U1 U2 U3)
    as (Hres & _ & _ & evs & Hlog & Hevs).
  rewrite Hres.
  destruct Hc as [Hno Hup|e sd Hurl Hd|p sd r s2' Hurl Hd Hp|r s2' Hno Hup Hp];
    [|rewrite Hlog; clear Hres Hlog..].
  - cbn [rejected res status sent].
    split_and!; try done; try congruence.
    intros _ _. split_and!; try done.
    apply unlink_case_falsy in U1; [|done]. subst s1.
    apply unlink_case_falsy in U2; [|done]. subst s2.
    apply unlink_case_falsy in U3; [|done]. by subst s3.
  - rewrite after_catch_eq. cbn [res status log].
    split_and!; try congruence.
    + split; [discriminate | intros [? _]; congruence].
    + intros Hu _. rewrite Hu in Hurl. discriminate.
    + intros _. split; [by right|].
      exists (Throws e), sd. eexists. split; [exact Hd|].
      by rewrite <- app_assoc.
  - pose proof Hd as Hd'.
    apply downloadYoutube_extends in Hd' as [(Rd & _) _].
    assert (status (res (settle r s2')) = 200 ∨ status (res (settle r s2')) = 500) as Hst.
    { destruct Hp; cbn [settle]; rewrite ?after_catch_eq; cbn [res status];
        [by right | by right | left]. by rewrite Rd. }
    split_and!; try congruence.
    + split; [destruct Hst as [-> | ->]; discriminate | intros [? _]; congruence].
    + intros Hu _. rewrite Hu in Hurl. discriminate.
    + intros _. split; [done|].
      exists (Returns p), sd.
      destruct Hp; cbn [settle]; rewrite ?after_catch_eq; cbn [log];
        eexists; (split; [exact Hd|]); rewrite <- ?app_assoc; reflexivity.
  - assert (status (res (settle r s2')) = 200 ∨ status (res (settle r s2')) = 500) as Hst.
    { destruct Hp; cbn [settle]; rewrite ?after_catch_eq; cbn [res status];
        [by right | by right | by left]. }
    split_and!; try congruence.
    + split; [destruct Hst as [-> | ->]; discriminate | intros [_ ?]; congruence].
    + intros _ Hf. unfold uploaded_path in Hup. rewrite Hf in Hup. discriminate.
    + intros _ _. split; [done|].
      destruct Hp; cbn [settle]; rewrite ?after_catch_eq;
        cbn [log reset_vars initial_state app]; eexists; reflexivity.
Qed.

Lemma cleanup_never_reads u evs :
  forallb cleanup_event evs = true →
  forallb (λ e, negb (reads_file u e)) evs = true.
Proof.
  induction evs as [|e evs IH]; [done|]. cbn [forallb].
  intros [He Hevs]%andb_true_iff. rewrite IH by done.
  by destruct e.
Qed.

Lemma download_never_reads u evs :
  forallb download_event evs = true →
  forallb (λ e, negb (reads_file u e)) evs = true.
Proof.
  induction evs as [|e evs IH]; [done|]. cbn [forallb].
  intros [He Hevs]%andb_true_iff. rewrite IH by done.
  by destruct e.
Qed.

Lemma eqb_ne (a b : string) : a ≠ b → String.eqb a b = false.
Proof. intros H. by apply String.eqb_neq. Qed.

(** C9: when a request carries a YouTube URL and an uploaded file (whose
    name does not start with the id of the request, as two uuids differ),
    no conversion and no transcription call ever reads the uploaded file,
    the cleanup step still calls [safeUnlink] on it, and unless
    [unlinkSync] fails the file is gone when the handler ends, whether the
    request succeeded or failed. *)
Theorem youtube_url_takes_precedence
    (w : World) (id : string) (req : request) (disk : list string) (u : string) :
  truthy (body_field (req_body req) "youtubeUrl") = true →
  req_file req = Some u →
  u ≠ EmptyString →
  (∀ name, startsWith name (id +:+ ".") = true → u ≠ path_join (tmp_dir w) name) →
  let final := snd (run (transcribe w id req) disk) in
  forallb (λ e, negb (reads_file u e)) (log final) = true
  ∧ EvExists (JStr u) ∈ log final
  ∧ (unlink_error w u = None → u ∉ files final).
Proof.
  intros Hurl Hfile Hne Hfresh. cbn zeta. unfold run.
  destruct (transcribe_run w id req (initial_state disk))
    as (sb & s1 & s2 & s3 & -> & Hc & U1 & U2 & U3).
  cbn [snd].
  assert (uploaded_path req = JStr u) as Hup by (unfold uploaded_path; by rewrite Hfile).
  rewrite Hup in U3.
  split_and!.
  - destruct (cleanup_chain _ _ _ _ _ _ _ _ U1 U2 U3)
      as (_ & _ & _ & evs & -> & Hevs).
    rewrite forallb_app, (cleanup_never_reads u evs Hevs), andb_true_r.
    assert (String.eqb (wav_path w id) u = false) as Hwav.
    { apply eqb_ne. intros <-. eapply Hfresh; [|reflexivity].
      apply (startsWith_id_ext id "wav"). }
    destruct Hc as [Hno _|e sd _ Hd|p sd r s2' _ Hd Hp|r s2' Hno _ _];
      try congruence.
    + apply downloadYoutube_extends in Hd as [(_ & _ & _ & dl & Hdl & Hall) _].
      rewrite after_catch_eq. cbn [log]. rewrite Hdl.
      cbn [reset_vars initial_state log app].
      by rewrite forallb_app, (download_never_reads u dl Hall).
    + apply downloadYoutube_extends in Hd as [(_ & _ & _ & dl & Hdl & Hall) Hn].
      destruct (Hn p eq_refl) as (name & Hname & ->).
      assert (String.eqb (path_join (tmp_dir w) name) u = false) as Hp'.
      { apply eqb_ne. intros <-. by eapply Hfresh. }
      destruct Hp; cbn [settle]; rewrite ?after_catch_eq; cbn [log];
        rewrite Hdl; cbn [reset_vars initial_state log app];
        rewrite !forallb_app, (download_never_reads u dl Hall);
        cbn [forallb reads_file]; by rewrite ?Hp', ?Hwav.
  - by eapply unlink_case_attempt.
  - intros Hu. by eapply unlink_case_deleted.
Qed.

(** The hypotheses of C9 hold for an upload next to a link. *)
Lemma youtube_url_precedence_witness :
  forallb (λ e, negb (reads_file Demo.upload e))
    (log (snd (run (transcribe Demo.studio "id1" Demo.both_request) [Demo.upload])))
  = true
  ∧ EvExists (JStr Demo.upload)
    ∈ log (snd (run (transcribe Demo.studio "id1" Demo.both_request) [Demo.upload]))
  ∧ (unlink_error Demo.studio Demo.upload = None →
     Demo.upload
     ∉ files (snd (run (transcribe Demo.studio "id1" Demo.both_request) [Demo.upload]))).
Proof.
  apply (youtube_url_takes_precedence Demo.studio "id1" Demo.both_request
           [Demo.upload] Demo.upload).
  - vm_compute. reflexivity.
  - reflexivity.
  - discriminate.
  - intros name Hname Heq. vm_compute in Heq.
    injection Heq as <-. vm_compute in Hname. discriminate.
Defined.

Example upload_removed_after_success :
  let final :=
    snd (run (transcribe Demo.studio "id1" Demo.both_request) [Demo.upload]) in
  status (res final) = 200 ∧ files final = ["/srv/tmp/id1.mp4"].
Proof. vm_compute. done. Qed.

Example upload_removed_after_failed_download :
  let final :=
    snd (run (transcribe Demo.outdated "id1" Demo.both_request) [Demo.upload]) in
  status (res final) = 500 ∧ files final = [].
Proof. vm_compute. done. Qed.

(** ** The downloaded file and the cleanup step *)

(** The handler never assigns its local [mp4Path]: the [finally] block
    always passes [null] to the first [safeUnlink]. *)
Lemma mp4Path_stays_null w id req s sb :
  transcribe_case w id req s sb → mp4Path (vars sb) = JNull.
Proof.
  intros [Hno Hup|e sd Hurl Hd|p sd r s2' Hurl Hd Hp|r s2' Hno Hup Hp].
  - done.
  - apply downloadYoutube_extends in Hd as [(_ & Hv & _) _].
    rewrite after_catch_eq. cbn [vars]. by rewrite Hv.
  - apply downloadYoutube_extends in Hd as [(_ & Hv & _) _].
    destruct Hp; cbn [settle]; rewrite ?after_catch_eq; cbn [vars mp4Path];
      by rewrite Hv.
  - destruct Hp; cbn [settle]; rewrite ?after_catch_eq; by cbn [vars mp4Path].
Qed.

Lemma pipeline_case_keeps_files w id input s r s' f :
  pipeline_case w id input s r s' → f ∈ files s → f ∈ files s'.
Proof.
  intros Hp Hf. destruct Hp; cbn [files]; unfold add_files;
    rewrite elem_of_app; by left.
Qed.

(** A file that [downloadYoutube] returned and wrote is still on disk when
    the handler ends, unless it is the wav file or the uploaded file. *)
Lemma downloaded_file_survives w id req disk p s1 :
  truthy (body_field (req_body req) "youtubeUrl") = true →
  downloadYoutube w (body_field (req_body req) "youtubeUrl") id (initial_state disk)
    = (Returns p, s1) →
  p ∈ files s1 → p ≠ wav_path w id → uploaded_path req ≠ JStr p →
  p ∈ files (snd (run (transcribe w id req) disk)).
Proof.
  intros Hurl Hd Hp Hwav Hup. unfold run.
  destruct (transcribe_run w id req (initial_state disk))
    as (sb & a & b & c & -> & Hc & U1 & U2 & U3).
  cbn [snd].
  pose proof (mp4Path_stays_null _ _ _ _ _ Hc) as Hnull.
  assert (p ∈ files sb ∧ (wavPath (vars sb) = JStr (wav_path w id))) as [Hsb Hw].
  { destruct Hc as [Hno _|e sd _ Hd'|p' sd r s2' _ Hd' Hpc|r s2' Hno _ _];
      try congruence.
    - change (reset_vars (initial_state disk)) with (initial_state disk) in Hd'.
      congruence.
    - change (reset_vars (initial_state disk)) with (initial_state disk) in Hd'.
      assert (sd = s1) as -> by congruence.
      split.
      + destruct r; cbn [settle]; rewrite ?after_catch_eq; cbn [files];
          by eapply pipeline_case_keeps_files.
      + destruct Hpc; cbn [settle]; rewrite ?after_catch_eq; by cbn [vars wavPath]. }
  eapply unlink_case_keeps; [exact U3| |done].
  eapply unlink_case_keeps; [exact U2| |].
  - eapply unlink_case_keeps; [exact U1|done|]. rewrite Hnull. discriminate.
  - rewrite Hw. congruence.
Qed.

(** C1 (the code does not do this): a request with a YouTube link in a
    world where every library works is answered 200, and the file that
    [downloadYoutube] wrote is still in the temporary directory when the
    handler has finished: the local [mp4Path] is null in the [finally]
    block, so no [safeUnlink] call ever looks at the downloaded file. *)
Theorem transcribe_leaves_download_on_disk :
  let final := snd (run (transcribe Demo.studio "id1" Demo.link_request) []) in
  status (res final) = 200
  ∧ files final = ["/srv/tmp/id1.mp4"]
  ∧ mp4Path (vars final) = JNull
  ∧ log final
    = [EvGetInfo Demo.video_url;
       EvYtdl Demo.video_url "/srv/tmp/id1.mp4";
       EvFfmpeg (JStr "/srv/tmp/id1.mp4") wav_output_options "/srv/tmp/id1.wav";
       EvTranscription "/srv/tmp/id1.wav" whisper_model;
       EvExists (JStr "/srv/tmp/id1.wav");
       EvUnlink "/srv/tmp/id1.wav"].
Proof. vm_compute. done. Qed.

(** ** The fallback of the download *)

Lemma ytdlp_fallback_starts w run url id s :
  ∃ evs, log (snd (ytdlp_fallback w run url id s))
         = log s ++ EvYtdlp url (out_template w id) :: evs.
Proof.
  unfold ytdlp_fallback, readdirSync. unfold_monad.
  destruct (run url (out_template w id)) as [[[]|e] written]; cbn [fst snd].
  - match goal with |- context [List.find ?f ?l] =>
      destruct (List.find f l) as [found|] end.
    + destruct (truthy (JStr found)); cbn [negb snd log];
        rewrite <- app_assoc; by eexists.
    + cbn [snd log]. rewrite <- app_assoc. by eexists.
  - cbn [snd log]. by eexists.
Qed.

(** C2, as the code has it: yt-dlp is attempted whenever the primary method
    throws and yt-dlp is installed, whatever the message of the error; the
    call of yt-dlp is then the next call made.  When yt-dlp is not
    installed no further call is made and an error is thrown: the upgrade
    instruction when the message matches [Could not extract functions],
    and [YouTube download failed:] followed by the message otherwise.  When
    the primary method returns, its path is returned and nothing else is
    called. *)
Theorem fallback_whenever_installed
    (w : World) (url : jsval) (id : string) (s s1 : state) (r : outcome string) :
  ytdl_validateURL w url = true →
  ytdl_primary w url (mp4_path w id) s = (r, s1) →
  match r, ytdlp w with
  | Returns p, _ => downloadYoutube w url id s = (Returns p, s1)
  | Throws e, Some run =>
      downloadYoutube w url id s = ytdlp_fallback w run url id s1
      ∧ ∃ evs, log (snd (downloadYoutube w url id s))
               = log s1 ++ EvYtdlp url (out_template w id) :: evs
  | Throws e, None =>
      let msg := to_string (message_or_string e) in
      downloadYoutube w url id s
      = (Throws (new_Error (if includes_ci decipher_pattern msg
                            then upgrade_message
                            else "YouTube download failed: " +:+ msg)), s1)
  end.
Proof.
  intros Hv Hp. unfold downloadYoutube, try_catch. rewrite Hv. cbn [negb].
  rewrite Hp.
  destruct r as [p|e]; [by destruct (ytdlp w)|].
  unfold download_recover. unfold bind at 1.
  unfold ytdlp_installed.
  destruct (ytdlp w) as [run|] eqn:Hy; cbn [negb].
  - rewrite Tauto.if_same. unfold ret at 1.
    split; [done|]. apply ytdlp_fallback_starts.
  - cbn zeta. by destruct (includes_ci _ _).
Qed.

(** C2, as stated, fails: ytdl-core throws [socket hang up], which does not
    match the pattern, and yet yt-dlp is called and its file is returned
    instead of the error. *)
Lemma fallback_on_unrecognised_failure :
  ytdl_primary Demo.resilient Demo.video_url (mp4_path Demo.resilient "id1")
    (initial_state [])
  = (Throws (new_Error "socket hang up"),
     mkState [] [EvGetInfo Demo.video_url] fresh_response
       (mkLocals JNull JNull JNull))
  ∧ includes_ci decipher_pattern "socket hang up" = false
  ∧ downloadYoutube Demo.resilient Demo.video_url "id1" (initial_state [])
    = (Returns "/srv/tmp/id1.mp3",
       mkState ["/srv/tmp/id1.mp3"]
         [EvGetInfo Demo.video_url;
          EvYtdlp Demo.video_url "/srv/tmp/id1.%(ext)s";
          EvReaddir "/srv/tmp"]
         fresh_response (mkLocals JNull JNull JNull)).
Proof. vm_compute. done. Qed.

(** The hypotheses of the amended C2 hold in that world. *)
Lemma fallback_whenever_installed_witness :
  ∃ evs, log (snd (downloadYoutube Demo.resilient Demo.video_url "id1"
                     (initial_state [])))
         = [EvGetInfo Demo.video_url]
           ++ EvYtdlp Demo.video_url (out_template Demo.resilient "id1") :: evs.
Proof.
  exact (proj2 (fallback_whenever_installed Demo.resilient Demo.video_url "id1"
                  (initial_state [])
                  (mkState [] [EvGetInfo Demo.video_url] fresh_response
                     (mkLocals JNull JNull JNull))
                  (Throws (new_Error "socket hang up")) eq_refl eq_refl)).
Defined.

Example no_fallback_when_not_installed :
  downloadYoutube Demo.offline Demo.video_url "id1" (initial_state [])
  = (Throws (new_Error "YouTube download failed: socket hang up"),
     mkState [] [EvGetInfo Demo.video_url] fresh_response
       (mkLocals JNull JNull JNull)).
Proof. vm_compute. done. Qed.

(** ** POST /api/qa *)



Example qa_answers :
  run (qa Demo.studio Demo.qa_body) []
  = (Returns tt,
     mkState []
       [EvChat (qa_messages (JStr "hello world") (JStr "What is said?")) chat_model]
       (mkResponse 200 ∅ (Some (BJson (obj [("answer", JStr "# Summary")]))))
       (mkLocals JNull JNull JNull)).
Proof. vm_compute. done. Qed.

Example qa_rejects_empty_question :
  res (snd (run (qa Demo.studio
                   (obj [("question", JStr EmptyString);
                         ("transcript", JStr "hello world")])) []))
  = mkResponse 400 ∅ (Some (BJson (obj [("error", JStr qa_missing_message)]))).
Proof. vm_compute. done. Qed.

Example qa_upstream_failure :
  res (snd (run (qa Demo.offline Demo.qa_body) []))
  = mkResponse 500 ∅
      (Some (BJson (obj [("error", JStr "QA failed");
                         ("details", JStr "Connection error.")]))).
Proof. vm_compute. done. Qed.

(** ** POST /api/export *)




Example export_csv_named :
  res (snd (run (export Demo.studio
                   (obj [("type", JStr "csv"); ("content", JStr "a,b");
                         ("filename", JStr "transcript")])) []))
  = mkResponse 200
      (<["Content-Disposition" := "attachment; filename=transcript.csv"]>
         (<["Content-Type" := "text/csv; charset=utf-8"]> ∅))
      (Some (BSend (JStr (String DQUOTE ("a,b" +:+ String DQUOTE EmptyString))))).
Proof. vm_compute. done. Qed.

Example export_docx_default_name :
  res (snd (run (export Demo.studio
                   (obj [("type", JStr "docx"); ("content", JStr "a")])) []))
  = mkResponse 200
      (<["Content-Disposition" := "attachment; filename=export.docx"]>
         (<["Content-Type" := docx_mime]> ∅))
      (Some (BBuffer "PK")).
Proof. vm_compute. done. Qed.

Example export_unsupported_type :
  res (snd (run (export Demo.studio
                   (obj [("type", JStr "xml"); ("content", JStr "a")])) []))
  = mkResponse 400 ∅ (Some (BJson (obj [("error", JStr "Unsupported type")]))).
Proof. vm_compute. done. Qed.

(** * Further properties *)

Import Reply Storage Decode Client.

(** ** The replies of the transcribe handler *)

Lemma pipeline_case_reply w id req input s r s' :
  res s = fresh_response →
  truthy (body_field (req_body req) "youtubeUrl") || truthy (uploaded_path req) = true →
  pipeline_case w id input s r s' →
  transcribe_reply w id req r
  = Some match r with
         | Returns _ => res s'
         | Throws e => mkResponse 500 ∅ (Some (BJson (failure_body e)))
         end
  ∧ match r with Returns _ => True | Throws _ => res s' = fresh_response end.
Proof.
  intros Hres Hin Hp. unfold transcribe_reply. rewrite Hin.
  destruct Hp as [e written Hf|e written Hf Hg|t written Hf Hg]; cbn [res].
  - done.
  - done.
  - rewrite Hg, Hres. done.
Qed.

Lemma transcribe_try_reply w id req disk r s1 :
  transcribe_try w id (body_field (req_body req) "youtubeUrl") (uploaded_path req)
    (initial_state disk) = (r, s1) →
  transcribe_reply w id req r
  = Some match r with
         | Returns _ => res s1
         | Throws e => mkResponse 500 ∅ (Some (BJson (failure_body e)))
         end
  ∧ match r with
    | Returns _ => True
    | Throws _ =>
        res s1 = fresh_response
        ∧ truthy (body_field (req_body req) "youtubeUrl") || truthy (uploaded_path req)
          = true
    end.
Proof.
  unfold transcribe_try.
  destruct (truthy (body_field (req_body req) "youtubeUrl")) eqn:Hurl.
  - unfold bind at 1.
    destruct (downloadYoutube _ _ _ _) as [[p|e] sd] eqn:Hd.
    + destruct (pipeline_cases w id (JStr p) sd) as (r' & s' & -> & Hc).
      intros [= <- <-].
      apply downloadYoutube_extends in Hd as [(Rd & _) _].
      destruct (pipeline_case_reply w id req (JStr p) sd r' s') as [H1 H2];
        [done|by rewrite Hurl|done|].
      split; [done|]. by destruct r'.
    + intros [= <- <-].
      apply downloadYoutube_extends in Hd as [(Rd & _) _]. done.
  - destruct (truthy (uploaded_path req)) eqn:Hup.
    + destruct (pipeline_cases w id (uploaded_path req) (initial_state disk))
        as (r' & s' & -> & Hc).
      intros [= <- <-].
      destruct (pipeline_case_reply w id req (uploaded_path req)
                  (initial_state disk) r' s') as [H1 H2];
        [done|by rewrite Hurl, Hup|done|].
      split; [done|]. by destruct r'.
    + intros [= <- <-]. unfold transcribe_reply. by rewrite Hurl, Hup.
Qed.

(** The response of a run of the handler is the reply of its [try] block. *)
Lemma transcribe_run_reply w id req disk :
  ∃ r s1,
    transcribe_try w id (body_field (req_body req) "youtubeUrl") (uploaded_path req)
      (initial_state disk) = (r, s1)
    ∧ transcribe_reply w id req r
      = Some (res (snd (run (transcribe w id req) disk)))
    ∧ fst (run (transcribe w id req) disk) = Returns tt
    ∧ match r with
      | Returns _ => True
      | Throws _ =>
          truthy (body_field (req_body req) "youtubeUrl") || truthy (uploaded_path req)
          = true
      end.
Proof.
  destruct (transcribe_try w id (body_field (req_body req) "youtubeUrl")
              (uploaded_path req) (initial_state disk)) as [r s1] eqn:Ht.
  exists r, s1. split; [done|].
  destruct (transcribe_try_reply _ _ _ _ _ _ Ht) as [Hr Hs].
  assert (∃ sb, try_catch
            (transcribe_try w id (body_field (req_body req) "youtubeUrl")
               (uploaded_path req))
            transcribe_catch (reset_vars (initial_state disk)) = (Returns tt, sb)
          ∧ Some (res sb) = transcribe_reply w id req r) as (sb & Hb & Hsb).
  { unfold try_catch.
    change (reset_vars (initial_state disk)) with (initial_state disk).
    rewrite Ht. destruct r as [[]|e].
    - by eexists.
    - eexists. split; [apply transcribe_catch_returns|].
      rewrite Hr, after_catch_eq. cbn [res]. destruct Hs as [Hs _]. by rewrite Hs. }
  unfold run.
  destruct (transcribe_finally w id req _ _ Hb) as (a & b & c & -> & U1 & U2 & U3).
  destruct (cleanup_chain _ _ _ _ _ _ _ _ U1 U2 U3) as (Hres & _).
  cbn [fst snd]. rewrite Hres. split_and!; [done|done|].
  destruct r; [done|]. by destruct Hs.
Qed.

(** X1: the transcribe handler always returns, and what it sends is one of
    three JSON bodies: with status 400 the error about the missing input,
    when no input was given; with status 500 the failure body of the error
    [e] its try block threw; with status 200 the id, the text and the
    transcription [t] the transcription call returned, the text being
    [t.text], or the empty string when that is falsy. *)
Theorem transcribe_response_table (w : World) (id : string) (req : request)
    (disk : list string) :
  let out := run (transcribe w id req) disk in
  let r := res (snd out) in
  let provided :=
    truthy (body_field (req_body req) "youtubeUrl") || truthy (uploaded_path req) in
  fst out = Returns tt
  ∧ ((provided = false ∧ status r = 400 ∧ sent r = Some (BJson rejected_body))
     ∨ (∃ e s1, provided = true ∧ status r = 500
          ∧ transcribe_try w id (body_field (req_body req) "youtubeUrl")
              (uploaded_path req) (initial_state disk) = (Throws e, s1)
          ∧ sent r = Some (BJson (failure_body e)))
     ∨ (∃ t, provided = true ∧ status r = 200
          ∧ groq_transcribe w (wav_path w id) = Returns t
          ∧ sent r = Some (BJson (success_body id t)))).
Proof.
  cbn zeta.
  destruct (transcribe_run_reply w id req disk) as (r & s1 & Ht & Hr & Hret & Hin).
  split; [exact Hret|].
  unfold transcribe_reply in Hr.
  destruct r as [[]|e].
  - destruct (truthy _ || truthy _) eqn:Hp.
    + destruct (groq_transcribe w (wav_path w id)) as [t|e] eqn:Hg; [|done].
      injection Hr as Hr. rewrite <- Hr. right. right. exists t.
      split_and!; done.
    + injection Hr as Hr. rewrite <- Hr. left. done.
  - injection Hr as Hr. rewrite <- Hr. right. left. exists e, s1. done.
Qed.

(** ** The question and export handlers *)



(** ** The files of a request *)

Lemma path_join_nonempty dir name : path_join dir name ≠ EmptyString.
Proof. unfold path_join. destruct dir; discriminate. Qed.

Lemma not_ffmpeg_in P (evs : list event) input opts out :
  (∀ e, P e = true → ∀ i o t, e ≠ EvFfmpeg i o t) →
  forallb P evs = true → EvFfmpeg input opts out ∉ evs.
Proof.
  intros HP Hall Hin. rewrite forallb_forall in Hall.
  apply list_elem_of_In in Hin. specialize (Hall _ Hin). by eapply HP.
Qed.

Lemma cleanup_event_not_ffmpeg e : cleanup_event e = true → ∀ i o t, e ≠ EvFfmpeg i o t.
Proof. by destruct e. Qed.

Lemma download_event_not_ffmpeg e : download_event e = true → ∀ i o t, e ≠ EvFfmpeg i o t.
Proof. by destruct e. Qed.

(** The wav path is assigned exactly when the conversion was started. *)
Lemma transcribe_case_wav w id req disk sb :
  transcribe_case w id req (initial_state disk) sb →
  (wavPath (vars sb) = JStr (wav_path w id))
  ∨ (wavPath (vars sb) = JNull ∧ ∀ i o t, EvFfmpeg i o t ∉ log sb).
Proof.
  intros [Hno Hup|e sd Hurl Hd|p sd r s2' Hurl Hd Hp|r s2' Hno Hup Hp].
  - right. split; [done|]. intros i o t. cbn. apply not_elem_of_nil.
  - right. apply downloadYoutube_extends in Hd as [(_ & Hv & _ & dl & Hdl & Hall) _].
    rewrite after_catch_eq. cbn [vars log]. rewrite Hv. split; [done|].
    intros i o t. rewrite Hdl. cbn [reset_vars initial_state log app].
    rewrite elem_of_app. intros [Hin|Hin].
    + by eapply not_ffmpeg_in, Hin; [apply download_event_not_ffmpeg|].
    + apply list_elem_of_singleton in Hin. discriminate.
  - left. destruct Hp; cbn [settle]; rewrite ?after_catch_eq; done.
  - left. destruct Hp; cbn [settle]; rewrite ?after_catch_eq; done.
Qed.

Lemma finally_removes_wav w id req disk input options :
  EvFfmpeg input options (wav_path w id) ∈ log (snd (run (transcribe w id req) disk)) →
  unlink_error w (wav_path w id) = None →
  wav_path w id ∉ files (snd (run (transcribe w id req) disk)).
Proof.
  unfold run.
  destruct (transcribe_run w id req (initial_state disk))
    as (sb & s1 & s2 & s3 & -> & Hc & U1 & U2 & U3).
  cbn [snd]. intros Hin Hu Hfinal.
  destruct (transcribe_case_wav _ _ _ _ _ Hc) as [Hw|[Hw Hnone]].
  - rewrite Hw in U2.
    eapply (unlink_case_deleted _ _ _ _ U2); eauto using path_join_nonempty.
    by eapply unlink_case_files_sub.
  - destruct (cleanup_chain _ _ _ _ _ _ _ _ U1 U2 U3)
      as (_ & _ & _ & evs & Hlog & Hevs).
    rewrite Hlog, elem_of_app in Hin. destruct Hin as [Hin|Hin].
    + by eapply Hnone.
    + by eapply not_ffmpeg_in, Hin; [apply cleanup_event_not_ffmpeg|].
Qed.

Lemma finally_removes_upload w id req disk u :
  req_file req = Some u → u ≠ EmptyString → unlink_error w u = None →
  u ∉ files (snd (run (transcribe w id req) disk)).
Proof.
  unfold run.
  destruct (transcribe_run w id req (initial_state disk))
    as (sb & s1 & s2 & s3 & -> & Hc & U1 & U2 & U3).
  cbn [snd]. intros Hfile Hne Hu.
  assert (uploaded_path req = JStr u) as Hup
    by (unfold uploaded_path; by rewrite Hfile).
  rewrite Hup in U3. by eapply unlink_case_deleted.
Qed.

(** X4: when the handler ends, the wav file of a request whose conversion
    was started is gone, and so is the stored upload, each provided its
    [unlinkSync] does not fail. *)
Theorem request_files_removed (w : World) (id : string) (req : request)
    (disk : list string) :
  let final := snd (run (transcribe w id req) disk) in
  (∀ input options,
     EvFfmpeg input options (wav_path w id) ∈ log final →
     unlink_error w (wav_path w id) = None →
     wav_path w id ∉ files final)
  ∧ (∀ u, req_file req = Some u → u ≠ EmptyString →
       unlink_error w u = None → u ∉ files final).
Proof.
  cbn zeta. split.
  - intros input options. apply finally_removes_wav.
  - intros u. apply finally_removes_upload.
Qed.

(** X5: a file that was on disk before the request, and is neither the wav
    file of the request nor its stored upload, is still there when the
    handler ends. *)
Theorem transcribe_spares_other_files (w : World) (id : string) (req : request)
    (disk : list string) (f : string) :
  f ∈ disk → f ≠ wav_path w id → req_file req ≠ Some f →
  f ∈ files (snd (run (transcribe w id req) disk)).
Proof.
  intros Hf Hwav Hup. unfold run.
  destruct (transcribe_run w id req (initial_state disk))
    as (sb & s1 & s2 & s3 & -> & Hc & U1 & U2 & U3).
  cbn [snd].
  pose proof (mp4Path_stays_null _ _ _ _ _ Hc) as Hnull.
  assert (f ∈ files sb) as Hsb.
  { destruct Hc as [Hno Hup'|e sd Hurl Hd|p sd r s2' Hurl Hd Hp|r s2' Hno Hup' Hp].
    - done.
    - apply downloadYoutube_extends in Hd as [(_ & _ & Hfs & _) _].
      rewrite after_catch_eq. cbn [files]. by apply Hfs.
    - apply downloadYoutube_extends in Hd as [(_ & _ & Hfs & _) _].
      destruct r; cbn [settle]; rewrite ?after_catch_eq; cbn [files];
        eapply pipeline_case_keeps_files; eauto; by apply Hfs.
    - destruct r; cbn [settle]; rewrite ?after_catch_eq; cbn [files];
        by eapply pipeline_case_keeps_files. }
  eapply unlink_case_keeps; [exact U3| |].
  - eapply unlink_case_keeps; [exact U2| |].
    + eapply unlink_case_keeps; [exact U1|done|]. rewrite Hnull. discriminate.
    + destruct (transcribe_case_wav _ _ _ _ _ Hc) as [->|[-> _]]; congruence.
  - unfold uploaded_path. destruct (req_file req); congruence.
Qed.

(** The hypotheses of X5 hold for another file next to a request. *)
Lemma transcribe_spares_other_files_witness :
  "/srv/tmp/other.mp3"
  ∈ files (snd (run (transcribe Demo.studio "id1" Demo.both_request)
                  [Demo.upload; "/srv/tmp/other.mp3"])).
Proof.
  apply (transcribe_spares_other_files Demo.studio "id1" Demo.both_request
           [Demo.upload; "/srv/tmp/other.mp3"] "/srv/tmp/other.mp3").
  - apply list_elem_of_further, list_elem_of_here.
  - discriminate.
  - discriminate.
Defined.


(** ** The errors of the download *)

(** X6: whatever [downloadYoutube] throws is an [Error] whose message is
    one of four: "Invalid YouTube URL" when ytdl-core does not accept the
    URL, and then nothing was called or written; without yt-dlp the
    instruction to upgrade, or "YouTube download failed: " and the message
    of the failure; with yt-dlp "yt-dlp fallback failed: " and the message
    of the failure of the fallback. *)
Theorem downloadYoutube_error_messages (w : World) (url : jsval) (id : string)
    (s s' : state) (e : jsval) :
  downloadYoutube w url id s = (Throws e, s') →
  ∃ msg, e = new_Error msg
         ∧ error_details e = JStr msg
         ∧ ((ytdl_validateURL w url = false ∧ msg = "Invalid YouTube URL" ∧ s' = s)
            ∨ (ytdl_validateURL w url = true ∧ ytdlp w = None
               ∧ (msg = upgrade_message
                  ∨ ∃ m, msg = "YouTube download failed: " +:+ m))
            ∨ (ytdl_validateURL w url = true ∧ ytdlp_installed w = true
               ∧ ∃ m, msg = "yt-dlp fallback failed: " +:+ m)).
Proof.
  unfold downloadYoutube.
  destruct (ytdl_validateURL w url); cbn [negb].
  2:{ unfold throw. intros [= <- <-]. eexists. split; [reflexivity|].
      split; [reflexivity|]. by left. }
  unfold try_catch.
  destruct (ytdl_primary w url (mp4_path w id) s) as [[p|e1] s1]; [done|].
  unfold download_recover. unfold bind at 1. unfold ytdlp_installed.
  destruct (ytdlp w) as [run|] eqn:Hy; cbn [negb].
  - rewrite Tauto.if_same. unfold ret at 1.
    unfold ytdlp_fallback, try_catch.
    match goal with |- context [bind ?a ?b s1] => destruct (bind a b s1) as [[p|e2] s2] end;
      [done|].
    unfold throw. intros [= <- <-]. eexists. split; [reflexivity|].
    split; [reflexivity|]. right. right. eauto.
  - destruct (includes_ci _ _); cbn [negb]; unfold ret, throw;
      intros [= <- <-]; (eexists; split; [reflexivity|]; split; [reflexivity|]);
      right; left; eauto.
Qed.

(** The hypothesis of X6 holds when ytdl-core fails and yt-dlp is absent. *)
Lemma downloadYoutube_error_messages_witness :
  ∃ msg, new_Error "YouTube download failed: socket hang up" = new_Error msg
         ∧ error_details (new_Error "YouTube download failed: socket hang up")
           = JStr msg
         ∧ ((ytdl_validateURL Demo.offline Demo.video_url = false
             ∧ msg = "Invalid YouTube URL"
             ∧ mkState [] [EvGetInfo Demo.video_url] fresh_response
                 (mkLocals JNull JNull JNull) = initial_state [])
            ∨ (ytdl_validateURL Demo.offline Demo.video_url = true
               ∧ ytdlp Demo.offline = None
               ∧ (msg = upgrade_message
                  ∨ ∃ m, msg = "YouTube download failed: " +:+ m))
            ∨ (ytdl_validateURL Demo.offline Demo.video_url = true
               ∧ ytdlp_installed Demo.offline = true
               ∧ ∃ m, msg = "yt-dlp fallback failed: " +:+ m)).
Proof.
  apply (downloadYoutube_error_messages Demo.offline Demo.video_url "id1"
           (initial_state [])).
  vm_compute. reflexivity.
Defined.

Lemma substring_all s : String.substring 0 (String.length s) s = s.
Proof. induction s as [|c r IH]; [done|]. cbn. by rewrite IH. Qed.

Lemma prefix_split d p :
  String.prefix d p = true →
  d +:+ String.substring (String.length d) (String.length p - String.length d) p = p.
Proof.
  revert p. induction d as [|c r IH]; intros p H.
  - cbn [String.length]. change (EmptyString +:+ ?x) with x.
    rewrite Nat.sub_0_r. apply substring_all.
  - destruct p as [|c' p']; [done|]. simpl in H.
    destruct (ascii_dec c c') as [->|]; [|done].
    rewrite append_cons. cbn [String.length Nat.sub String.substring].
    by rewrite IH.
Qed.

Lemma strip_dir_join dir p name :
  strip_dir dir p = Some name → path_join dir name = p.
Proof.
  unfold strip_dir, path_join.
  destruct (String.prefix (dir +:+ "/") p) eqn:H; [|done].
  intros [= <-]. rewrite <- append_assoc. by apply prefix_split.
Qed.

Lemma join_strip_dir dir name : strip_dir dir (path_join dir name) = Some name.
Proof.
  unfold strip_dir, path_join. rewrite <- append_assoc, prefix_append.
  f_equal. apply (String.app_inj (dir +:+ "/")).
  rewrite prefix_split; [done|apply prefix_append].
Qed.

(** X7: the path the yt-dlp fallback returns is a file on disk, in the
    temporary directory, whose name starts with the id of the request and a
    dot.  When yt-dlp ends without an error and the fallback still throws,
    no file so named is on disk and the error says that yt-dlp did not
    produce an output file. *)
Theorem fallback_returns_listed_file (w : World)
    (run : jsval → string → tool_result) (url : jsval) (id : string) (s : state) :
  match ytdlp_fallback w run url id s with
  | (Returns p, s') =>
      p ∈ files s'
      ∧ ∃ name, startsWith name (id +:+ ".") = true
                ∧ p = path_join (tmp_dir w) name
  | (Throws e, s') =>
      (fst (run url (out_template w id)) = Returns tt →
       (∀ name, startsWith name (id +:+ ".") = true →
          path_join (tmp_dir w) name ∉ files s')
       ∧ e = new_Error "yt-dlp fallback failed: yt-dlp did not produce an output file")
  end.
Proof.
  unfold ytdlp_fallback, readdirSync. unfold_monad.
  destruct (run url (out_template w id)) as [[[]|e] written]; cbn [fst snd];
    [|done].
  match goal with |- context [List.find ?f ?l] =>
    destruct (List.find f l) as [found|] eqn:Hfind end.
  - apply find_some in Hfind as [Hin Hpre].
    apply list_elem_of_In, list_elem_of_omap in Hin as (p & Hp & Hstrip).
    apply strip_dir_join in Hstrip.
    assert (truthy (JStr found) = true) as ->.
    { apply truthy_JStr. intros ->. unfold startsWith in Hpre.
      destruct id; discriminate. }
    cbn [negb files]. rewrite Hstrip. split; [done|]. exists found.
    by rewrite Hstrip.
  - intros _. split; [|done]. cbn [files]. intros name Hname Hin.
    eapply find_none in Hfind.
    + by rewrite Hname in Hfind.
    + apply list_elem_of_In, list_elem_of_omap. eexists. split; [exact Hin|].
      apply join_strip_dir.
Qed.

Lemma signature_not_in_prefix m :
  includes failure_signature ("YouTube download failed: " +:+ m)
  = includes failure_signature m.
Proof. reflexivity. Qed.

(** X8: a link that ytdl-core accepts and fails on with the error [e],
    without yt-dlp, is answered 500 before any conversion: the details are
    the instruction to upgrade when the message of [e] matches the decipher
    pattern, and "YouTube download failed: " with that message otherwise;
    the hint is there when the pattern matched or the message itself holds
    the text "ytdl-core failed". *)
Theorem unaided_download_failure_response (w : World) (id : string)
    (req : request) (disk : list string) (e : jsval) (s1 : state) :
  let url := body_field (req_body req) "youtubeUrl" in
  let msg := to_string (message_or_string e) in
  let decipher := includes_ci decipher_pattern msg in
  truthy url = true →
  ytdl_validateURL w url = true →
  ytdlp w = None →
  ytdl_primary w url (mp4_path w id) (initial_state disk) = (Throws e, s1) →
  let r := res (snd (run (transcribe w id req) disk)) in
  status r = 500
  ∧ prop (json_body r) "details"
    = JStr (if decipher then upgrade_message
            else "YouTube download failed: " +:+ msg)
  ∧ prop (json_body r) "hint"
    = (if decipher || includes failure_signature msg
       then JStr hint_message else JUndefined)
  ∧ ∀ i o t, EvFfmpeg i o t ∉ log (snd (run (transcribe w id req) disk)).
Proof.
  cbn zeta. intros Hurl Hv Hy Hp.
  set (err := new_Error
         (if includes_ci decipher_pattern (to_string (message_or_string e))
          then upgrade_message
          else "YouTube download failed: " +:+ to_string (message_or_string e))).
  assert (downloadYoutube w (body_field (req_body req) "youtubeUrl") id
            (initial_state disk) = (Throws err, s1)) as Hd.
  { unfold downloadYoutube, try_catch. rewrite Hv. cbn [negb]. rewrite Hp.
    unfold download_recover, ytdlp_installed. rewrite Hy. unfold bind.
    subst err. by destruct (includes_ci _ _). }
  assert (try_catch
            (transcribe_try w id (body_field (req_body req) "youtubeUrl")
               (uploaded_path req))
            transcribe_catch (reset_vars (initial_state disk))
          = (Returns tt, after_catch err s1)) as Hb.
  { unfold try_catch, transcribe_try.
    change (reset_vars (initial_state disk)) with (initial_state disk).
    rewrite Hurl. unfold bind at 1. by rewrite Hd. }
  subst err.
  unfold run.
  destruct (transcribe_finally w id req _ _ Hb) as (a & b & c & -> & U1 & U2 & U3).
  destruct (cleanup_chain _ _ _ _ _ _ _ _ U1 U2 U3)
    as (Hres & _ & _ & evs & Hlog & Hevs).
  cbn [snd]. rewrite Hres, Hlog, after_catch_eq. unfold json_body.
  cbn [res status sent log].
  split_and!.
  - done.
  - destruct (includes_ci _ _); vm_compute; reflexivity.
  - destruct (includes_ci _ _).
    + vm_compute. reflexivity.
    + cbn [orb]. unfold error_details, js_or, new_Error.
      cbn [opt_prop prop String.eqb Ascii.eqb Bool.eqb].
      change (truthy (JStr ("YouTube download failed: " +:+ ?m))) with true.
      cbn [to_string]. rewrite signature_not_in_prefix.
      by destruct (includes failure_signature _).
  - intros i o t. rewrite !elem_of_app. intros [[Hin|Hin]|Hin].
    + apply ytdl_primary_extends in Hp as [(_ & _ & _ & dl & Hdl & Hall) _].
      rewrite Hdl in Hin. cbn [initial_state log app] in Hin.
      by eapply not_ffmpeg_in, Hin; [apply download_event_not_ffmpeg|].
    + apply list_elem_of_singleton in Hin. discriminate.
    + by eapply not_ffmpeg_in, Hin; [apply cleanup_event_not_ffmpeg|].
Qed.

(** The hypotheses of X8 hold for a page ytdl-core cannot decipher. *)
Lemma unaided_download_failure_witness :
  status (res (snd (run (transcribe Demo.outdated "id1" Demo.link_request) []))) = 500
  ∧ prop (json_body (res (snd (run (transcribe Demo.outdated "id1"
                                      Demo.link_request) []))))
      "details"
    = JStr upgrade_message.
Proof.
  pose proof (unaided_download_failure_response Demo.outdated "id1"
                Demo.link_request [] (new_Error "Could not extract functions")
                (mkState [] [EvGetInfo Demo.video_url] fresh_response
                   (mkLocals JNull JNull JNull))
                eq_refl eq_refl eq_refl eq_refl) as H.
  cbn zeta in H. destruct H as (H500 & Hdetails & _).
  split; [exact H500|exact Hdetails].
Defined.

(** ** The storage of uploads *)

Lemma prefix_same_length a b x y :
  String.length a = String.length b →
  String.prefix (a +:+ x) (b +:+ y) = true → a = b.
Proof.
  revert b. induction a as [|c r IH]; intros [|c' r'] Hlen H; try done.
  rewrite !append_cons in H. simpl in H.
  destruct (ascii_dec c c') as [->|]; [|done].
  f_equal. apply IH; [by injection Hlen|done].
Qed.

(** X9: the path multer gives an upload is not empty, names a file in the
    temporary directory called by the id of the upload and an extension
    that is not empty (".wav" when the original name has none), and, when
    the id of the upload differs from the id of the request (two uuids, of
    equal length), is none of the paths of the request: not its mp4 path,
    not its wav path, not a file the yt-dlp fallback could pick. *)
Theorem stored_upload_is_not_a_request_file (w : World) (extname : string → string)
    (uid originalname id : string) :
  String.length uid = String.length id → uid ≠ id →
  let u := stored_path w extname uid originalname in
  u ≠ EmptyString
  ∧ (∃ ext, ext ≠ EmptyString ∧ u = path_join (tmp_dir w) (uid +:+ ext)
            ∧ (extname originalname = EmptyString → ext = ".wav"))
  ∧ u ≠ mp4_path w id
  ∧ u ≠ wav_path w id
  ∧ (∀ name, startsWith name (id +:+ ".") = true → u ≠ path_join (tmp_dir w) name).
Proof.
  intros Hlen Hne. cbn zeta.
  assert (∀ name, startsWith name (id +:+ ".") = true →
            stored_path w extname uid originalname ≠ path_join (tmp_dir w) name) as Hfresh.
  { intros name Hname Heq. unfold stored_path, path_join in Heq.
    apply String.app_inj, String.app_inj in Heq. subst name.
    unfold startsWith, filename in Hname.
    apply prefix_same_length in Hname; congruence. }
  split_and!.
  - apply path_join_nonempty.
  - unfold stored_path, filename.
    destruct (extname originalname) as [|c r] eqn:He.
    + by exists ".wav".
    + exists (String c r). split_and!; done.
  - apply Hfresh, (startsWith_id_ext id "mp4").
  - apply Hfresh, (startsWith_id_ext id "wav").
  - exact Hfresh.
Qed.

(** The hypotheses of X9 hold for two ids of equal length. *)
Lemma stored_upload_witness :
  stored_path Demo.studio (λ _, ".mp3") "up7" "talk.mp3" ≠ wav_path Demo.studio "id1"
  ∧ stored_path Demo.studio (λ _, EmptyString) "up7" "talk" = "/srv/tmp/up7.wav".
Proof.
  split; [|reflexivity].
  assert ("up7" ≠ "id1") as Hne by discriminate.
  pose proof (stored_upload_is_not_a_request_file Demo.studio (λ _, ".mp3")
                "up7" "talk.mp3" "id1" eq_refl Hne) as H.
  cbn zeta in H. destruct H as (_ & _ & _ & Hwav & _). exact Hwav.
Defined.

(** ** The csv export, read back *)

Lemma crlf_to_lf_cons c r :
  crlf_to_lf (String c r)
  = if Ascii.eqb c CR && starts_with_LF r then crlf_to_lf r
    else String c (crlf_to_lf r).
Proof.
  cbn [crlf_to_lf]. destruct r as [|c' r']; cbn [starts_with_LF].
  - by rewrite andb_false_r.
  - destruct (Ascii.eqb c CR) eqn:Ec, (Ascii.eqb_spec c' LF) as [->|Hc'];
      cbn [andb]; try done.
    cbn [crlf_to_lf]. destruct r' as [|c'' r'']; [done|].
    change (Ascii.eqb LF CR) with false. done.
Qed.

Lemma join_push_front c ls :
  ls ≠ [] → join nl (push_front c ls) = String c (join nl ls).
Proof. destruct ls as [|l [|l' ls']]; done. Qed.

Lemma join_split_lines c : join nl (split_lines c) = crlf_to_lf c.
Proof.
  induction c as [|a r IH]; [done|].
  rewrite split_lines_cons, crlf_to_lf_cons.
  destruct (Ascii.eqb_spec a LF) as [->|Ha].
  - change (Ascii.eqb LF CR) with false. cbn [andb].
    pose proof (split_lines_nonempty r).
    destruct (split_lines r) as [|l ls] eqn:E; [done|].
    change (join nl (EmptyString :: l :: ls)) with (String LF (join nl (l :: ls))).
    by rewrite IH.
  - destruct (Ascii.eqb a CR && starts_with_LF r); [done|].
    rewrite join_push_front by apply split_lines_nonempty. by rewrite IH.
Qed.

Lemma crlf_to_lf_id c : has_crlf c = false → crlf_to_lf c = c.
Proof.
  induction c as [|a r IH]; [done|].
  cbn [has_crlf]. intros [H1 H2]%orb_false_elim.
  rewrite crlf_to_lf_cons, H1, IH; done.
Qed.

(** X10: splitting the csv text of a content into lines, unquoting each
    and joining them with LF gives the content with every CR LF replaced by
    LF; it gives the content itself when that holds no CR LF. *)
Theorem csv_decodes_to_content (content : string) :
  let decoded :=
    join nl (map csv_unquote (split_lines (csv_of_lines (split_lines content)))) in
  decoded = crlf_to_lf content
  ∧ (has_crlf content = false → decoded = content).
Proof.
  cbn zeta.
  assert (map csv_unquote (split_lines (csv_of_lines (split_lines content)))
          = split_lines content) as ->.
  { rewrite split_csv_of_lines;
      [| apply split_lines_nonempty | apply split_lines_no_LF].
    rewrite <- list_fmap_compose.
    rewrite <- (list_fmap_id (split_lines content)) at 2.
    apply list_fmap_ext. intros _ l _. apply csv_unquote_quote. }
  rewrite join_split_lines. split; [done|apply crlf_to_lf_id].
Qed.

(** * The page and the server *)

(** ** What the page reads in a reply *)









(** ** The YouTube button *)


(** ** The upload button *)




(** ** The ask button *)



(** ** The download button *)




(** ** The theme *)

Lemma load_after_setTheme m t :
  m ≠ EmptyString → load_theme (setTheme m t) = setTheme m t.
Proof.
  intros Hm. unfold load_theme, setTheme. cbn [stored].
  apply truthy_JStr in Hm. by rewrite Hm.
Qed.

Lemma shown_theme_is_set (t : theme) (n : nat) :
  ∃ m t', m ≠ EmptyString ∧ Nat.iter n toggle_theme (load_theme t) = setTheme m t'.
Proof.
  destruct n as [|n].
  - cbn [Nat.iter]. unfold load_theme.
    destruct (stored t) as [m|]; [|by exists "dark", t].
    destruct (truthy (JStr m)) eqn:Hm; [|by exists "dark", t].
    exists m, t. split; [by apply truthy_JStr|done].
  - change (Nat.iter (S n) toggle_theme (load_theme t))
      with (toggle_theme (Nat.iter n toggle_theme (load_theme t))).
    unfold toggle_theme at 1.
    destruct (light (Nat.iter n toggle_theme (load_theme t)));
      eexists _, _; (split; [|reflexivity]); done.
Qed.

(** X15: the theme the page shows after it loaded and the toggle was
    clicked [n] times is the theme it shows when it is loaded again; the
    body has the class light exactly when the stored theme is "light"; a
    click on the toggle switches the class, two clicks restore it, and the
    class after [n] clicks is the class after loading, switched when [n] is
    odd. *)
Theorem theme_survives_reload (t : theme) (n : nat) :
  let shown := Nat.iter n toggle_theme (load_theme t) in
  load_theme shown = shown
  ∧ (light shown = true ↔ stored shown = Some "light")
  ∧ light (toggle_theme shown) = negb (light shown)
  ∧ light (toggle_theme (toggle_theme shown)) = light shown
  ∧ light shown = xorb (Nat.odd n) (light (load_theme t)).
Proof.
  cbn zeta.
  destruct (shown_theme_is_set t n) as (m & t' & Hm & Heq).
  split_and!.
  - rewrite Heq. by apply load_after_setTheme.
  - rewrite Heq. cbn [setTheme light stored]. rewrite String.eqb_eq.
    split; [by intros -> | by intros [= ->]].
  - rewrite Heq. unfold toggle_theme, setTheme. cbn [light].
    by destruct (String.eqb m "light").
  - rewrite Heq. unfold toggle_theme, setTheme. cbn [light].
    by destruct (String.eqb m "light").
  - clear. induction n as [|n IH].
    { change (Nat.iter 0 toggle_theme (load_theme t)) with (load_theme t).
      change (Nat.odd 0) with false. by destruct (light (load_theme t)). }
    rewrite Nat.odd_succ, <- Nat.negb_odd.
    change (Nat.iter (S n) toggle_theme (load_theme t))
      with (toggle_theme (Nat.iter n toggle_theme (load_theme t))).
    unfold toggle_theme at 1. cbn [setTheme light].
    rewrite IH. by destruct (Nat.odd n), (light (load_theme t)).
Qed.

(** * markdownToHtml *)

Import Markdown.

Lemma length_append (a b : string) :
  String.length (a +:+ b) = (String.length a + String.length b)%nat.
Proof. induction a as [|c r IH]; [done|]. rewrite append_cons. cbn. by rewrite IH. Qed.

Lemma append_nil_r (a : string) : a +:+ EmptyString = a.
Proof. induction a as [|c r IH]; [done|]. by rewrite append_cons, IH. Qed.

Lemma has_char_head c x r :
  has_char c (String x r) = false → x ≠ c ∧ has_char c r = false.
Proof.
  cbn [has_char]. intros [H1 H2]%orb_false_elim. split; [|done].
  by apply Ascii.eqb_neq.
Qed.

Lemma plain_chars s :
  plain s = true →
  has_char "#" s = false ∧ has_char "*" s = false ∧ has_char LF s = false.
Proof.
  unfold plain. intros H%negb_true_iff.
  apply orb_false_elim in H as [H%orb_false_elim H3]. by destruct H.
Qed.


Lemma all_chars_head p x r :
  all_chars p (String x r) = true → p x = true ∧ all_chars p r = true.
Proof. cbn [all_chars]. by intros ?%andb_true_iff. Qed.

Lemma all_chars_has_char p c s :
  p c = false → all_chars p s = true → has_char c s = false.
Proof.
  intros Hc. induction s as [|x r IH]; [done|].
  intros [Hx Hr]%all_chars_head. cbn [has_char]. rewrite (IH Hr), orb_false_r.
  apply Ascii.eqb_neq. by intros ->; congruence.
Qed.

(** ** The first character of a match *)

Lemma h3_starts : starts_with h3 "#".
Proof.
  intros prev [|x r] H; cbn; destruct (at_bol prev); try done;
    by destruct (Ascii.eqb_spec x "#").
Qed.

Lemma h2_starts : starts_with h2 "#".
Proof.
  intros prev [|x r] H; cbn; destruct (at_bol prev); try done;
    by destruct (Ascii.eqb_spec x "#").
Qed.

Lemma h1_starts : starts_with h1 "#".
Proof.
  intros prev [|x r] H; cbn; destruct (at_bol prev); try done;
    by destruct (Ascii.eqb_spec x "#").
Qed.

Lemma strong_starts : starts_with strong "*".
Proof. intros prev [|x r] H; cbn; [done|]. by destruct (Ascii.eqb_spec x "*"). Qed.

Lemma ul_starts : starts_with ul LF.
Proof. intros prev [|x r] H; cbn; [done|]. by destruct (Ascii.eqb_spec x LF). Qed.

Lemma ol_starts : starts_with ol LF.
Proof. intros prev [|x r] H; cbn; [done|]. by destruct (Ascii.eqb_spec x LF). Qed.

Lemma br_starts : starts_with br LF.
Proof.
  intros prev [|x r] H; cbn; [done|]. unfold newline.
  by destruct (Ascii.eqb_spec x LF).
Qed.

(** ** The global replacement *)

(** Where nothing matches, the text is kept. *)
Lemma scan_prefix re tpl c a s prev :
  starts_with re c → has_char c a = false →
  ∃ prev', scan re tpl prev 0 (a +:+ s) = a +:+ scan re tpl prev' 0 s.
Proof.
  intros Hre. revert prev. induction a as [|x r IH]; intros prev Ha.
  - by exists prev.
  - apply has_char_head in Ha as [Hx Hr].
    rewrite append_cons. cbn [scan]. rewrite (Hre prev (String x (r +:+ s)) Hx).
    destruct (IH (Some x) Hr) as [prev' ->]. by exists prev'.
Qed.

Lemma scan_end re tpl c prev :
  starts_with re c → scan re tpl prev 0 EmptyString = EmptyString.
Proof. intros Hre. cbn [scan]. by rewrite (Hre prev EmptyString). Qed.

Lemma scan_step re tpl prev x r :
  matches re false prev (String x r) = None →
  scan re tpl prev 0 (String x r) = String x (scan re tpl (Some x) 0 r).
Proof. intros H. cbn [scan]. by rewrite H. Qed.

Lemma scan_id re tpl c s prev :
  starts_with re c → has_char c s = false → scan re tpl prev 0 s = s.
Proof.
  intros Hre Hs.
  destruct (scan_prefix re tpl c s EmptyString prev Hre Hs) as [prev' H].
  rewrite append_nil_r in H. rewrite H, (scan_end re tpl c prev' Hre).
  apply append_nil_r.
Qed.

Lemma replace_all_id re tpl c s :
  starts_with re c → has_char c s = false → replace_all re tpl s = s.
Proof. apply scan_id. Qed.

Lemma scan_skip re tpl a s prev :
  ∃ prev', scan re tpl prev (String.length a) (a +:+ s) = scan re tpl prev' 0 s.
Proof.
  revert prev. induction a as [|x r IH]; intros prev.
  - by exists prev.
  - rewrite append_cons. cbn [String.length scan]. apply IH.
Qed.

(** A match of the text [String x r] in front of [s] is replaced, and the
    search goes on in [s]. *)
Lemma scan_match re tpl prev x r s f :
  matches re false prev (String x (r +:+ s)) = Some f → rest f = s →
  ∃ prev', scan re tpl prev 0 (String x (r +:+ s))
           = expand tpl f +:+ scan re tpl prev' 0 s.
Proof.
  intros Hm Hrest. cbn [scan]. rewrite Hm, Hrest.
  replace (String.length (String x (r +:+ s)) - String.length s)%nat
    with (S (String.length r))
    by (cbn [String.length]; rewrite length_append; lia).
  destruct (scan_skip re tpl r s (Some x)) as [prev' ->]. by exists prev'.
Qed.


(** ** Repetitions *)




(** A greedy repetition outside the group takes a run of its class whole,
    when the run is long enough and the text after it starts otherwise. *)
Lemma rep_run k p n s min prev gr rs :
  all_chars p n = true → (min ≤ String.length n)%nat →
  match s with
  | String y _ => p y = false
  | EmptyString => True
  end →
  (∀ q, k q s = Some (mkFound gr rs)) →
  rep k min p true false prev (n +:+ s) = Some (mkFound gr rs).
Proof.
  intros Hn Hmin Hs Hk. revert min prev Hmin.
  induction n as [|x r IH]; intros min prev Hmin.
  - cbn [String.length] in Hmin. assert (min = 0%nat) as -> by lia.
    change (EmptyString +:+ s) with s.
    destruct s as [|y s']; cbn [rep]; [apply Hk|]. rewrite Hs. apply Hk.
  - apply all_chars_head in Hn as [Hx Hr].
    rewrite append_cons. cbn [rep]. rewrite Hx.
    rewrite (IH Hr (Nat.pred min) (Some x)) by (cbn [String.length] in Hmin; lia).
    by destruct min.
Qed.

(** ** Plain text *)

(** X16: [markdownToHtml] returns a text without [#], without star and
    without line feed as it is; it escapes nothing, so that markup in such
    a text stays as written. *)
Theorem markdownToHtml_plain (md : string) :
  plain md = true → markdownToHtml md = md.
Proof.
  intros (Hh & Hs & Hl)%plain_chars. unfold markdownToHtml.
  rewrite (replace_all_id h3 _ "#"), (replace_all_id h2 _ "#"),
    (replace_all_id h1 _ "#"), (replace_all_id strong _ "*"),
    (replace_all_id ul _ LF), (replace_all_id ol _ LF), (replace_all_id br _ LF);
    auto using h3_starts, h2_starts, h1_starts, strong_starts, ul_starts,
      ol_starts, br_starts.
Qed.

(** The hypothesis of X16 holds for a text with markup. *)
Lemma markdownToHtml_plain_witness :
  markdownToHtml "<b>I don't know</b> - based on the transcript."
  = "<b>I don't know</b> - based on the transcript.".
Proof. apply markdownToHtml_plain. reflexivity. Defined.

(** ** Headings *)



Section Heading.
Variable t : string.
Hypothesis no_hash : has_char "#" t = false.
Hypothesis no_LF : has_char LF t = false.
Hypothesis no_CR : has_char CR t = false.








End Heading.




(** ** Bold text *)



(** ** List items *)





Lemma ol_at_LF p s :
  matches ol false p (String LF s)
  = took false LF
      (rep (matches [Lit "."; One space; Open; Rep 0 any true; Close] false)
         1 digit true false (Some LF) s).
Proof. reflexivity. Qed.


Lemma ul_at_LF p s :
  matches ul false p (String LF s)
  = took false LF
      (matches [Lit "-"; One space; Open; Rep 0 any true; Close] false (Some LF) s).
Proof. reflexivity. Qed.

(** Neither expression of the items matches at a line feed that no dash
    and no digit follows. *)
Lemma ul_needs_dash p s :
  match s with
  | String y _ => Ascii.eqb y "-" = false
  | EmptyString => True
  end →
  matches ul false p (String LF s) = None.
Proof.
  intros H. rewrite ul_at_LF. destruct s as [|y s']; [done|].
  cbn [matches]. by rewrite H.
Qed.

Lemma ol_needs_digit p s :
  match s with
  | String y _ => digit y = false
  | EmptyString => True
  end →
  matches ol false p (String LF s) = None.
Proof.
  intros H. rewrite ol_at_LF. destruct s as [|y s']; [done|].
  cbn [rep]. by rewrite H.
Qed.




(** ** Blank lines *)

Lemma newline_is_LF x : newline x = true → x = LF.
Proof. unfold newline. by intros ?%Ascii.eqb_eq. Qed.

Lemma newline_chars n :
  all_chars newline n = true → has_char "#" n = false ∧ has_char "*" n = false.
Proof. intros H. split; by apply (all_chars_has_char newline). Qed.

Section BlankLines.
Variable b : string.
Hypothesis no_LF : has_char LF b = false.
Hypothesis no_item : starts_item b = false.

Lemma item_start_of_run r :
  all_chars newline r = true →
  match r +:+ b with
  | String y _ => Ascii.eqb y "-" = false ∧ digit y = false
  | EmptyString => True
  end.
Proof.
  destruct r as [|y r'].
  - intros _. change (EmptyString +:+ b) with b. destruct b as [|y b']; [done|].
    cbn [starts_item] in no_item. by apply orb_false_elim in no_item.
  - intros [->%newline_is_LF _]%all_chars_head. rewrite append_cons. done.
Qed.

Lemma ul_keeps_run tpl n prev :
  all_chars newline n = true → scan ul tpl prev 0 (n +:+ b) = n +:+ b.
Proof.
  revert prev. induction n as [|x r IH]; intros prev Hn.
  - apply (scan_id ul tpl LF); [apply ul_starts|done].
  - apply all_chars_head in Hn as [->%newline_is_LF Hr].
    rewrite append_cons, scan_step; [by rewrite IH|].
    apply ul_needs_dash. pose proof (item_start_of_run r Hr) as Hstart.
    destruct (r +:+ b); [done|]. by destruct Hstart.
Qed.

Lemma ol_keeps_run tpl n prev :
  all_chars newline n = true → scan ol tpl prev 0 (n +:+ b) = n +:+ b.
Proof.
  revert prev. induction n as [|x r IH]; intros prev Hn.
  - apply (scan_id ol tpl LF); [apply ol_starts|done].
  - apply all_chars_head in Hn as [->%newline_is_LF Hr].
    rewrite append_cons, scan_step; [by rewrite IH|].
    apply ol_needs_digit. pose proof (item_start_of_run r Hr) as Hstart.
    destruct (r +:+ b); [done|]. by destruct Hstart.
Qed.

Lemma br_of_run a n :
  has_char LF a = false → all_chars newline n = true →
  replace_all br [Text "<br/>"] (a +:+ String LF (String LF n) +:+ b)
  = a +:+ "<br/>" +:+ b.
Proof.
  intros Ha Hn. unfold replace_all.
  destruct (scan_prefix br [Text "<br/>"] LF a (String LF (String LF n) +:+ b)
              None br_starts Ha) as [p ->].
  rewrite append_cons.
  destruct (scan_match br [Text "<br/>"] p LF (String LF n) b
              (mkFound EmptyString b)) as [p' ->]; [|done|].
  - rewrite <- append_cons. cbn [matches br].
    apply (rep_run _ newline (String LF (String LF n)) b 2 p).
    + cbn [all_chars]. by rewrite Hn.
    + cbn [String.length]. lia.
    + destruct b as [|y b']; [done|]. apply has_char_head in no_LF as [Hy _].
      unfold newline. by apply Ascii.eqb_neq.
    + done.
  - rewrite (scan_id br _ LF b p' br_starts no_LF). done.
Qed.

End BlankLines.

(** X20: [markdownToHtml] turns two or more line feeds between two plain
    texts, the second of which does not start like an item of a list, into
    one br element. *)
Theorem markdownToHtml_blank_lines (a n b : string) :
  plain a = true → all_chars newline n = true →
  plain b = true → starts_item b = false →
  markdownToHtml (a +:+ String LF (String LF n) +:+ b) = a +:+ "<br/>" +:+ b.
Proof.
  intros (Ha1 & Ha2 & Ha3)%plain_chars Hn (Hb1 & Hb2 & Hb3)%plain_chars Hitem.
  destruct (newline_chars _ Hn) as (Hn1 & Hn2).
  unfold markdownToHtml.
  rewrite (replace_all_id h3 _ "#"), (replace_all_id h2 _ "#"),
    (replace_all_id h1 _ "#"), (replace_all_id strong _ "*");
    try (by rewrite has_char_app, append_cons, append_cons; cbn [has_char];
            rewrite has_char_app, ?Ha1, ?Ha2, ?Hb1, ?Hb2, ?Hn1, ?Hn2);
    auto using h3_starts, h2_starts, h1_starts, strong_starts.
  assert (∀ re tpl, (∀ m prev, all_chars newline m = true →
                       scan re tpl prev 0 (m +:+ b) = m +:+ b) →
            starts_with re LF →
            replace_all re tpl (a +:+ String LF (String LF n) +:+ b)
            = a +:+ String LF (String LF n) +:+ b) as Hkeep.
  { intros re tpl Hrun Hre. unfold replace_all.
    destruct (scan_prefix re tpl LF a (String LF (String LF n) +:+ b) None Hre Ha3)
      as [p ->].
    rewrite Hrun; [done|]. cbn [all_chars]. by rewrite Hn. }
  rewrite (Hkeep ul) by (try apply ul_starts; intros; by apply ul_keeps_run).
  rewrite (Hkeep ol) by (try apply ol_starts; intros; by apply ol_keeps_run).
  by apply br_of_run.
Qed.

(** The hypotheses of X20 hold for three line feeds. *)
Lemma markdownToHtml_blank_lines_witness :
  markdownToHtml ("one" +:+ String LF (String LF (String LF "two")))
  = "one<br/>two".
Proof.
  apply (markdownToHtml_blank_lines "one" (String LF EmptyString) "two");
    reflexivity.
Defined.
